(** * MidwayWSFramework (packages/ws/src/framework.ts)

    A shallow embedding of the WebSocket framework class: the upgrade
    gate installed by [run], the per-connection event router of
    [addNamespace], the response binder [bindSocketResponse] and the
    heartbeat sweep of [startHeartBeat].

    Conventions of the embedding.
    - Calls into the transport ([socket.send], [socket.ping],
      [socket.terminate], [socket.destroy], [socket.on], the logger, an
      acknowledgment callback) are recorded, in program order, in a trace
      of [event]s; a computation is a pair of the trace it produced and of
      its [outcome] (a returned value or a raised failure).
    - Every [await] of the connection handler leaves an [EAwait] marker in
      the trace: it is a point where the async function hands control back
      to its caller.
    - Application code is an input: handler methods are functions from
      their arguments to an [outcome], middleware are [mw] trees. What
      application code does on its own is not recorded; that a handler
      was called is ([EInvoke]).
    - [methodMap] is a plain JS object used as a map from method names to
      entries. Its own properties are a [gmap]; reading [methodMap[name]]
      is [get_property], which falls back on the members every plain
      object inherits from [Object.prototype]. *)

From Stdlib Require Import ZArith.
From stdpp Require Import base gmap strings list.

Open Scope string_scope.
Open Scope list_scope.

(** ** JavaScript values *)

(** An IEEE double, as far as truthiness can tell doubles apart: every
    finite double is [mantissa * 2 ^ exponent]. *)
Inductive number :=
| NaN
| Infinity (negative : bool)
| NegZero
| Dyadic (mantissa exponent : Z).

Inductive value :=
| VUndefined
| VNull
| VBool (b : bool)
| VNum (n : number)
| VBigInt (z : Z)
| VStr (s : string)
| VObj (ref : nat)
| VFun (ref : nat).

(** ToBoolean. *)
Definition truthy (v : value) : bool :=
  match v with
  | VUndefined | VNull => false
  | VBool b => b
  | VNum NaN | VNum NegZero => false
  | VNum (Infinity _) => true
  | VNum (Dyadic m _) => negb (m =? 0)%Z
  | VBigInt z => negb (z =? 0)%Z
  | VStr s => negb (String.eqb s "")
  | VObj _ | VFun _ => true
  end.

(** [typeof v === 'function'] *)
Definition is_function (v : value) : bool :=
  match v with VFun _ => true | _ => false end.

(** [v === false] *)
Definition strict_eq_false (v : value) : bool :=
  match v with VBool false => true | _ => false end.

(** Modelled from the spec: [Types.isObject] of [@midwayjs/core], which is
    not part of this file's source; the spec's serialization rule
    separates structured, object-shaped results from primitive ones. *)
Definition isObject (v : value) : bool :=
  match v with VObj _ => true | _ => false end.

(** What is handed to [socket.send]: the value itself, or the string
    [JSON.stringify] makes of it (kept symbolic). *)
Inductive payload :=
| Raw (v : value)
| JSON_stringify (v : value).

Definition formatResult (result : value) : payload :=
  if isObject result then JSON_stringify result else Raw result.

(** ** Failures, outcomes and traces *)

Inductive exn :=
| MidwayInvokeForbiddenError (propertyName : string)
| Thrown (v : value).

Inductive outcome (A : Type) :=
| Returns (a : A)
| Throws (e : exn).
Arguments Returns {A} a.
Arguments Throws {A} e.

(** An application middleware [async (ctx, next) => ...]: it returns, it
    throws, or it awaits [next()] and goes on with what that produced
    (a result or, through its own try/catch, a failure). A tree that
    asks for [next] again runs the rest of the chain again. *)
Inductive mw :=
| MwReturn (v : value)
| MwThrow (e : exn)
| MwNext (k : outcome value -> mw).

(** ** Event descriptors and the response table *)

(** Modelled from the spec: [WSEventTypeEnum] of [@midwayjs/core], whose
    declaration is not part of this file's source; these are the event
    kinds of the spec's EventDescriptor, under the names the source uses. *)
Inductive WSEventTypeEnum :=
| ON_CONNECTION
| ON_MESSAGE
| ON_DISCONNECTION
| EMIT
| BROADCAST.

Record WSEventInfo := {
  propertyName : string;
  eventType : WSEventTypeEnum;
  messageEventName : string;
  (** [eventOptions?.middleware || []] *)
  eventMiddleware : list mw;
}.

Record method_entry := { responseEvents : list WSEventInfo }.

Inductive ReadyState := CONNECTING | OPEN | CLOSING | CLOSED.

Definition is_open (s : ReadyState) : bool :=
  match s with OPEN => true | _ => false end.

(** What a listener registered with [socket.on] does when it fires; the
    closures of [addNamespace] are told apart by the descriptor they
    capture. *)
Inductive listener :=
| LError
| LPong
| LMessage (wsEventInfo : WSEventInfo)
| LClose (wsEventInfo : WSEventInfo).

Record IMidwayWSContext := {
  sock_id : nat;
  readyState : ReadyState;
  isAlive : value;
  listeners : list (string * listener);
}.

Inductive level := Debug | Info | Warn | Error.

Inductive await_point :=
| AwCompose
| AwConnectionMiddleware
| AwGetController
| AwPipeline
| AwUpgradeAuth
| AwGuard
| AwHandler
| AwBindResponse.

Inductive event :=
| ELog (lvl : level) (msg : string) (err : option exn)
| EDestroy (rawSocket : nat)
| EHandleUpgrade (rawSocket : nat)
| EEmitConnection (ws : nat)
| ESend (ws : nat) (p : payload)
| EAck (callback : nat) (result : value)
| EInvoke (propertyName : string) (args : list value)
| EPing (ws : nat)
| ETerminate (ws : nat)
| ERegister (ws : nat) (eventName : string) (l : listener)
| EAwait (p : await_point).

(** The monad of the embedding: a trace and an outcome. *)
Definition M (A : Type) : Type := (list event * outcome A)%type.

Definition ret {A} (a : A) : M A := ([], Returns a).

Definition throw {A} (e : exn) : M A := ([], Throws e).

Definition bind {A B} (m : M A) (k : A -> M B) : M B :=
  match m with
  | (tr, Returns a) => let (tr', o) := k a in (tr ++ tr', o)
  | (tr, Throws e) => (tr, Throws e)
  end.

(** [try { body } catch (e) { handler e }] *)
Definition try_catch {A} (body : M A) (handler : exn -> M A) : M A :=
  match body with
  | (tr, Returns a) => (tr, Returns a)
  | (tr, Throws e) => let (tr', o) := handler e in (tr ++ tr', o)
  end.

Definition emit_event (e : event) : M unit := ([e], Returns tt).

#[global] Instance M_ret : MRet M := @ret.
#[global] Instance M_bind : MBind M := fun A B k m => bind m k.

Definition trace_of {A} (m : M A) : list event := m.1.
Definition outcome_of {A} (m : M A) : outcome A := m.2.

Fixpoint for_each {A} (l : list A) (f : A -> M unit) : M unit :=
  match l with
  | [] => ret tt
  | x :: l' => f x ;; for_each l' f
  end.

(** The effects the framework issues. *)
Definition log (lvl : level) (msg : string) (err : option exn) : M unit :=
  emit_event (ELog lvl msg err).
Definition await (p : await_point) : M unit := emit_event (EAwait p).

(** ** Middleware *)

Fixpoint run_mw (m : mw) (next : M value) : M value :=
  match m with
  | MwReturn v => ret v
  | MwThrow e => throw e
  | MwNext k => (next.1 ++ (run_mw (k next.2) next).1, (run_mw (k next.2) next).2)
  end.

(** An element of a chain handed to [compose]. *)
Definition middleware : Type := M value -> M value.

(** Modelled from the spec: [middlewareService.compose] of
    [@midwayjs/core], which is not part of this file's source. The
    composed callable runs the interceptors in registration order, each
    one receiving the rest of the chain as [next]; a failure raised in an
    interceptor propagates out of the composed callable; the end of the
    chain is the [next] the composed callable was given (a no-op when it
    was given none). *)
Definition compose (chain : list middleware) (next : M value) : M value :=
  foldr (fun m rest => m rest) next chain.

Definition no_next : M value := ret VUndefined.

Definition send (socket : IMidwayWSContext) (p : payload) : M unit :=
  emit_event (ESend (sock_id socket) p).

(** ** [methodMap], a plain object *)

(** The property names a plain object inherits from [Object.prototype].
    Each of them reads as a truthy value (a function; for [__proto__] the
    prototype object itself) that has no [responseEvents]. *)
Definition object_prototype_names : list string :=
  ["constructor"; "__defineGetter__"; "__defineSetter__"; "hasOwnProperty";
   "__lookupGetter__"; "__lookupSetter__"; "isPrototypeOf"; "propertyIsEnumerable";
   "toString"; "valueOf"; "__proto__"; "toLocaleString"].

Definition object_prototype_member (name : string) : bool :=
  bool_decide (name ∈ object_prototype_names).

(** What [methodMap[name]] reads. *)
Inductive property :=
| Own (entry : method_entry)
| Inherited
| Undefined.

Definition get_property (methodMap : gmap string method_entry) (name : string) : property :=
  match methodMap !! name with
  | Some entry => Own entry
  | None => if object_prototype_member name then Inherited else Undefined
  end.

(** The failure of reading a property of [undefined], or of iterating
    over it. *)
Definition TypeError : exn := Thrown (VStr "TypeError").

(** ** The response binder *)

(** [clients] is [this.app.clients] at the time of the call. On an
    inherited member [methodMap[name]] is truthy but its [responseEvents]
    is [undefined], and the [for ... of] of line 370 throws. *)
Definition bindSocketResponse (clients : list IMidwayWSContext)
    (result : value) (socket : IMidwayWSContext) (name : string)
    (methodMap : gmap string method_entry) : M unit :=
  if negb (truthy result) then ret tt
  else match get_property methodMap name with
  | Own entry =>
      for_each (responseEvents entry) (fun wsEventInfo =>
        match eventType wsEventInfo with
        | EMIT => send socket (formatResult result)
        | BROADCAST =>
            for_each clients (fun client =>
              if is_open (readyState client)
              then send client (formatResult result)
              else ret tt)
        | _ => ret tt
        end) ;;
      if (length (responseEvents entry) =? 0)%nat
      then send socket (formatResult result)
      else ret tt
  | Inherited => throw TypeError
  | Undefined => send socket (formatResult result)
  end.

(** The sends of a trace, and those that reach one connection. *)
Definition sends_of (tr : list event) : list (nat * payload) :=
  omap (fun e => match e with ESend ws p => Some (ws, p) | _ => None end) tr.

Definition sends_to (ws : nat) (tr : list event) : list payload :=
  omap (fun e => match e with
                 | ESend ws' p => if decide (ws' = ws) then Some p else None
                 | _ => None
                 end) tr.

Definition open_clients (clients : list IMidwayWSContext) : list IMidwayWSContext :=
  filter (fun c => is_open (readyState c) = true) clients.


(** ** The framework object and its collaborators *)

(** What the methods below read from [this], from the class metadata and
    from the request-scoped controller. *)
Record MidwayWSFramework := {
  (** [controller[name].apply(controller, args)]: application code *)
  controller : string -> list value -> outcome value;
  (** [this.app.getFramework().runGuard(ctx, target, name)] *)
  runGuard : string -> outcome bool;
  (** the framework's own middleware, composed first by [applyMiddleware] *)
  frameworkMiddleware : list mw;
  connectionMiddlewareManager : list mw;
  (** [controllerOption.routerOptions.middleware ?? []] *)
  controllerMiddleware : list mw;
  (** [controllerOption.routerOptions.connectionMiddleware ?? []] *)
  controllerConnectionMiddleware : list mw;
  (** [getClassMetadata(WS_EVENT_KEY, target)] *)
  wsEventInfos : list WSEventInfo;
  (** the predicate applied to (request, socket, head) *)
  upgradeAuthHandler : option (nat -> outcome value);
  (** [this.app.handleUpgrade]: the WebSocket the handshake yields, if it
      completes *)
  handshake : nat -> option nat;
}.

Definition of_outcome {A} (o : outcome A) : M A := ([], o).

(** [await e]: the marker, then what [e] does. *)
Definition awaiting {A} (p : await_point) (e : M A) : M A := await p ;; e.

Definition invoke (fw : MidwayWSFramework) (name : string) (args : list value) : M value :=
  emit_event (EInvoke name args) ;; of_outcome (controller fw name args).

(** Modelled from the spec: [applyMiddleware] of the base framework in
    [@midwayjs/core], which is not part of this file's source; following
    the spec's Middleware Pipeline (the general chain first, then the more
    specific one) it composes the framework's own middleware in front of
    the middleware it is given. *)
Definition applyMiddleware (fw : MidwayWSFramework) (lastMiddleware : middleware) :
    M value -> M value :=
  compose (map run_mw (frameworkMiddleware fw) ++ [lastMiddleware]).

Definition set_isAlive (socket : IMidwayWSContext) (v : value) : IMidwayWSContext :=
  {| sock_id := sock_id socket; readyState := readyState socket;
     isAlive := v; listeners := listeners socket |}.

(** [socket.on(eventName, l)] *)
Definition socket_on (socket : IMidwayWSContext) (eventName : string) (l : listener) :
    M IMidwayWSContext :=
  emit_event (ERegister (sock_id socket) eventName l) ;;
  ret {| sock_id := sock_id socket; readyState := readyState socket;
         isAlive := isAlive socket;
         listeners := listeners socket ++ [(eventName, l)] |}.

(** ** The upgrade gate ([run], the 'upgrade' listener) *)

Definition upgrade_listener (fw : MidwayWSFramework) (request rawSocket : nat) : M unit :=
  proceed ←
    match upgradeAuthHandler fw with
    | Some handler =>
        try_catch
          (authResult ← awaiting AwUpgradeAuth (of_outcome (handler request));
           if negb (truthy authResult)
           then log Warn "[midway:ws] WebSocket upgrade authentication failed" None ;;
                emit_event (EDestroy rawSocket) ;;
                ret false
           else log Debug "[midway:ws] WebSocket upgrade authentication passed" None ;;
                ret true)
          (fun error =>
             log Error "[midway:ws] WebSocket upgrade authentication error:" (Some error) ;;
             emit_event (EDestroy rawSocket) ;;
             ret false)
    | None => ret true
    end;
  if proceed : bool
  then emit_event (EHandleUpgrade rawSocket) ;;
       match handshake fw request with
       | Some ws => emit_event (EEmitConnection ws)
       | None => ret tt
       end
  else ret tt.

(** What the peer and the transport can observe of a trace: everything
    but the log lines. *)
Definition is_internal (e : event) : bool :=
  match e with ELog _ _ _ | EAwait _ => true | _ => false end.

Definition visible (tr : list event) : list event :=
  filter (fun e => is_internal e = false) tr.

(** [onWebSocketUpgrade(handler)]: install or, with [None], remove the
    predicate. *)
Definition onWebSocketUpgrade (fw : MidwayWSFramework)
    (handler : option (nat -> outcome value)) : M MidwayWSFramework :=
  log Info (match handler with
            | Some _ => "[midway:ws] WebSocket upgrade authentication handler set"
            | None => "[midway:ws] WebSocket upgrade authentication handler removed"
            end) None ;;
  ret {| controller := controller fw;
         runGuard := runGuard fw;
         frameworkMiddleware := frameworkMiddleware fw;
         connectionMiddlewareManager := connectionMiddlewareManager fw;
         controllerMiddleware := controllerMiddleware fw;
         controllerConnectionMiddleware := controllerConnectionMiddleware fw;
         wsEventInfos := wsEventInfos fw;
         upgradeAuthHandler := handler;
         handshake := handshake fw |}.

(** The predicate's answer is a rejection: a falsy value or a failure. *)
Definition rejects (o : outcome value) : bool :=
  match o with
  | Returns authResult => negb (truthy authResult)
  | Throws _ => true
  end.

(** ** The event router ([addNamespace], the 'connection' listener) *)

Definition last_arg (args : list value) : value := default VUndefined (last args).

(** [cb(result)] *)
Definition call_ack (cb : value) (result : value) : M unit :=
  match cb with
  | VFun f => emit_event (EAck f result)
  | _ => throw (Thrown (VStr "TypeError: not a function"))
  end.

Section Router.
Variable fw : MidwayWSFramework.
(** [this.app.clients] *)
Variable clients : list IMidwayWSContext.

(** Lines 256-272: the last element of the on-connection chain, the guard
    and then the handler. *)
Definition guarded_handler (socket : IMidwayWSContext) (request : nat)
    (wsEventInfo : WSEventInfo) : M value :=
  isPassed ← awaiting AwGuard (of_outcome (runGuard fw (propertyName wsEventInfo)));
  if negb isPassed
  then throw (MidwayInvokeForbiddenError (propertyName wsEventInfo))
  else invoke fw (propertyName wsEventInfo) [VObj (sock_id socket); VObj request].

(** Lines 253-276: [fn(socket)]. *)
Definition connection_pipeline (socket : IMidwayWSContext) (request : nat)
    (wsEventInfo : WSEventInfo) : M value :=
  fn ← awaiting AwCompose (ret (compose
      (map run_mw (eventMiddleware wsEventInfo) ++
       [fun _next => guarded_handler socket request wsEventInfo])));
  awaiting AwPipeline (fn no_next).

(** Lines 252-286: the on-connection branch. *)
Definition on_connection_dispatch (socket : IMidwayWSContext) (request : nat)
    (wsEventInfo : WSEventInfo) (methodMap : gmap string method_entry) : M unit :=
  try_catch
    (result ← connection_pipeline socket request wsEventInfo;
     awaiting AwBindResponse
       (bindSocketResponse clients result socket (propertyName wsEventInfo) methodMap))
    (fun err => log Error "" (Some err)).

(** Lines 293-312: the pipeline around the handler of a message. *)
Definition message_pipeline (wsEventInfo : WSEventInfo) (args : list value) : M value :=
  run ← awaiting AwCompose (ret (applyMiddleware fw (fun next =>
      fn ← awaiting AwCompose (ret (compose
        (map run_mw (controllerMiddleware fw) ++
         map run_mw (eventMiddleware wsEventInfo) ++
         [fun _next => invoke fw (propertyName wsEventInfo) args])));
      awaiting AwPipeline (fn next))));
  awaiting AwPipeline (run no_next).

(** Lines 289-328: the listener of a named message event. *)
Definition message_listener (socket : IMidwayWSContext) (wsEventInfo : WSEventInfo)
    (methodMap : gmap string method_entry) (args : list value) : M unit :=
  log Debug "[ws]: got message" None ;;
  try_catch
    (result ← message_pipeline wsEventInfo args;
     if is_function (last_arg args)
     then call_ack (last_arg args) result
     else awaiting AwBindResponse
            (bindSocketResponse clients result socket (propertyName wsEventInfo) methodMap))
    (fun error => log Error "" (Some error)).

(** Lines 333-347: the listener of 'close'. *)
Definition close_listener (socket : IMidwayWSContext) (wsEventInfo : WSEventInfo)
    (methodMap : gmap string method_entry) (reason : value) : M unit :=
  try_catch
    (result ← awaiting AwHandler (invoke fw (propertyName wsEventInfo) [reason]);
     awaiting AwBindResponse
       (bindSocketResponse clients result socket (propertyName wsEventInfo) methodMap))
    (fun err => log Error "" (Some err)).

(** The state owned by one run of the 'connection' listener: the socket
    and the [methodMap] object its closures share. *)
Definition connection : Type := (IMidwayWSContext * gmap string method_entry)%type.

(** [methodMap[name] = methodMap[name] || { responseEvents: [] }]. An
    inherited member is truthy, so no entry is made for its name: the
    assignment stores the member itself (for [__proto__] it sets the
    prototype to what it already is), and the name goes on reading as
    that member. *)
Definition ensure_entry (name : string) (methodMap : gmap string method_entry) :
    gmap string method_entry :=
  match get_property methodMap name with
  | Own _ | Inherited => methodMap
  | Undefined => <[name := {| responseEvents := [] |}]> methodMap
  end.

(** [methodMap[name].responseEvents.push(wsEventInfo)] (line 350, outside
    any [try]): where the name reads as an inherited member there is no
    [responseEvents] to push on. *)
Definition push_response (wsEventInfo : WSEventInfo)
    (methodMap : gmap string method_entry) : M (gmap string method_entry) :=
  match get_property methodMap (propertyName wsEventInfo) with
  | Own entry =>
      ret (<[propertyName wsEventInfo :=
               {| responseEvents := responseEvents entry ++ [wsEventInfo] |}]> methodMap)
  | Inherited | Undefined => throw TypeError
  end.

(** Lines 245-354: one turn of the loop over the descriptors. *)
Definition process_descriptor (request : nat) (conn : connection)
    (wsEventInfo : WSEventInfo) : M connection :=
  let socket := conn.1 in
  let methodMap := ensure_entry (propertyName wsEventInfo) conn.2 in
  awaiting AwGetController (ret tt) ;;
  match eventType wsEventInfo with
  | ON_CONNECTION =>
      on_connection_dispatch socket request wsEventInfo methodMap ;;
      ret (socket, methodMap)
  | ON_MESSAGE =>
      socket' ← socket_on socket (messageEventName wsEventInfo) (LMessage wsEventInfo);
      ret (socket', methodMap)
  | ON_DISCONNECTION =>
      socket' ← socket_on socket "close" (LClose wsEventInfo);
      ret (socket', methodMap)
  | EMIT | BROADCAST =>
      methodMap' ← push_response wsEventInfo methodMap;
      ret (socket, methodMap')
  end.

Fixpoint process_descriptors (request : nat) (conn : connection)
    (infos : list WSEventInfo) : M connection :=
  match infos with
  | [] => ret conn
  | wsEventInfo :: rest =>
      conn' ← process_descriptor request conn wsEventInfo;
      process_descriptors request conn' rest
  end.

(** Lines 213-224: what the 'connection' listener does before its first
    [await]. *)
Definition accept (socket : IMidwayWSContext) : M IMidwayWSContext :=
  socket ← socket_on (set_isAlive socket (VBool true)) "error" LError;
  socket_on socket "pong" LPong.

(** Lines 212-356: the 'connection' listener. *)
Definition on_connection (socket : IMidwayWSContext) (request : nat) : M connection :=
  socket ← accept socket;
  connectFn ← awaiting AwCompose (ret (compose
    (map run_mw (connectionMiddlewareManager fw ++ controllerConnectionMiddleware fw))));
  awaiting AwConnectionMiddleware (connectFn no_next) ;;
  process_descriptors request (socket, ∅) (wsEventInfos fw).

(** A listener firing with [args]. *)
Definition fire (conn : connection) (l : listener) (args : list value) : M connection :=
  match l with
  | LError => log Error "socket got error" None ;; ret conn
  | LPong => ret (set_isAlive conn.1 (VBool true), conn.2)
  | LMessage wsEventInfo => message_listener conn.1 wsEventInfo conn.2 args ;; ret conn
  | LClose wsEventInfo =>
      close_listener conn.1 wsEventInfo conn.2 (default VUndefined (head args)) ;; ret conn
  end.

Fixpoint fire_all (conn : connection) (ls : list listener) (args : list value) :
    M connection :=
  match ls with
  | [] => ret conn
  | l :: rest => conn' ← fire conn l args; fire_all conn' rest args
  end.

(** [socket.emit(eventName, ...args)]: the listeners registered under the
    name fire in registration order; with none registered nothing
    happens. *)
Definition listeners_for (eventName : string) (socket : IMidwayWSContext) : list listener :=
  omap (fun '(n, l) => if String.eqb n eventName then Some l else None) (listeners socket).

Definition socket_emit (conn : connection) (eventName : string) (args : list value) :
    M connection :=
  fire_all conn (listeners_for eventName conn.1) args.

End Router.

(** ** Vocabulary for the statements about the router *)

(** What a dispatch may do to the outside: log, send, acknowledge, call a
    handler, await. Destroying or terminating a socket, pinging it and
    registering or removing listeners are not among them. *)
Definition dispatch_event (e : event) : bool :=
  match e with
  | ELog _ _ _ | ESend _ _ | EAck _ _ | EInvoke _ _ | EAwait _ => true
  | _ => false
  end.

(** The marks the response binder leaves: the await in front of it and
    its sends. *)
Definition response_event (e : event) : bool :=
  match e with
  | ESend _ _ | EAwait AwBindResponse => true
  | _ => false
  end.

Definition is_pong (l : listener) : bool :=
  match l with LPong => true | _ => false end.

Definition is_invoke (e : event) : bool :=
  match e with EInvoke _ _ => true | _ => false end.

Definition is_response (kind : WSEventTypeEnum) : bool :=
  match kind with EMIT | BROADCAST => true | _ => false end.

(** The response-policy descriptors of a method among [infos], in
    declaration order. *)
Definition response_events_for (name : string) (infos : list WSEventInfo) :
    list WSEventInfo :=
  filter (fun i => is_response (eventType i) = true /\ propertyName i = name) infos.

(** [methodMap[name]?.responseEvents ?? []] *)
Definition table_events (methodMap : gmap string method_entry) (name : string) :
    list WSEventInfo :=
  match methodMap !! name with
  | Some entry => responseEvents entry
  | None => []
  end.

(** The table once a response descriptor has been pushed on its entry. *)
Definition with_response (wsEventInfo : WSEventInfo)
    (methodMap : gmap string method_entry) : gmap string method_entry :=
  match methodMap !! propertyName wsEventInfo with
  | Some entry =>
      <[propertyName wsEventInfo :=
          {| responseEvents := responseEvents entry ++ [wsEventInfo] |}]> methodMap
  | None => methodMap
  end.

(** What one turn of the loop, when it goes through, does to
    [methodMap]. *)
Definition table_step (methodMap : gmap string method_entry) (wsEventInfo : WSEventInfo) :
    gmap string method_entry :=
  if is_response (eventType wsEventInfo)
  then with_response wsEventInfo (ensure_entry (propertyName wsEventInfo) methodMap)
  else ensure_entry (propertyName wsEventInfo) methodMap.

(** A response descriptor on a method named like a member of
    [Object.prototype]: the turn of the loop that line 350 makes fail. *)
Definition unsafe (wsEventInfo : WSEventInfo) : bool :=
  is_response (eventType wsEventInfo) && object_prototype_member (propertyName wsEventInfo).

(** The turn of the loop for this descriptor fails on this table: it is
    a response descriptor and its method name reads as an inherited
    member. *)
Definition step_fails (methodMap : gmap string method_entry) (wsEventInfo : WSEventInfo) :
    bool :=
  is_response (eventType wsEventInfo)
  && match get_property methodMap (propertyName wsEventInfo) with
     | Inherited => true
     | _ => false
     end.

Definition loop_safe (infos : list WSEventInfo) : bool :=
  forallb (fun i => negb (unsafe i)) infos.

(** No own entry under an inherited name: true of the empty table the
    'connection' listener starts from, and kept by the loop. *)
Definition no_inherited_key (methodMap : gmap string method_entry) : Prop :=
  forall name, object_prototype_member name = true -> methodMap !! name = None.

Definition build_table (infos : list WSEventInfo) (methodMap : gmap string method_entry) :
    gmap string method_entry :=
  foldl table_step methodMap infos.

Definition add_listeners (socket : IMidwayWSContext) (ls : list (string * listener)) :
    IMidwayWSContext :=
  {| sock_id := sock_id socket; readyState := readyState socket;
     isAlive := isAlive socket; listeners := listeners socket ++ ls |}.

(** What the loop does for one descriptor once it holds the controller:
    a whole on-connection dispatch, or one registration, or nothing to
    the outside. *)
Definition descriptor_events (fw : MidwayWSFramework) (clients : list IMidwayWSContext)
    (request : nat) (socket : IMidwayWSContext) (methodMap : gmap string method_entry)
    (wsEventInfo : WSEventInfo) : list event :=
  match eventType wsEventInfo with
  | ON_CONNECTION =>
      trace_of (on_connection_dispatch fw clients socket request wsEventInfo methodMap)
  | ON_MESSAGE =>
      [ERegister (sock_id socket) (messageEventName wsEventInfo) (LMessage wsEventInfo)]
  | ON_DISCONNECTION =>
      [ERegister (sock_id socket) "close" (LClose wsEventInfo)]
  | EMIT | BROADCAST => []
  end.

(** The listeners a descriptor list asks for, in declaration order. *)
Definition listener_plan (infos : list WSEventInfo) : list (string * listener) :=
  omap (fun i => match eventType i with
                 | ON_MESSAGE => Some (messageEventName i, LMessage i)
                 | ON_DISCONNECTION => Some ("close", LClose i)
                 | _ => None
                 end) infos.

(** The descriptors the loop gets through: all of them up to the first
    unsafe one. *)
Fixpoint processed (infos : list WSEventInfo) : list WSEventInfo :=
  match infos with
  | [] => []
  | i :: rest => if unsafe i then [] else i :: processed rest
  end.

(** What the loop over [pre ++ infos] leaves in the trace from [infos]
    on, for a socket [accepted] and an empty table at the start of the
    loop: descriptor by descriptor the await of the controller lookup and
    then the events of the descriptor, with the listeners and the table
    that the descriptors before it have made; nothing more after an
    unsafe descriptor. *)
Fixpoint loop_trace (fw : MidwayWSFramework) (clients : list IMidwayWSContext)
    (request : nat) (accepted : IMidwayWSContext) (pre infos : list WSEventInfo) :
    list event :=
  match infos with
  | [] => []
  | i :: rest =>
      EAwait AwGetController ::
      descriptor_events fw clients request
        (add_listeners accepted (listener_plan pre))
        (ensure_entry (propertyName i) (build_table pre ∅)) i
      ++ (if unsafe i then []
          else loop_trace fw clients request accepted (pre ++ [i]) rest)
  end.

Definition registrations_of (tr : list event) : list (string * listener) :=
  omap (fun e => match e with ERegister _ n l => Some (n, l) | _ => None end) tr.

Definition is_router_registration (e : event) : bool :=
  match e with
  | ERegister _ _ (LMessage _) | ERegister _ _ (LClose _) => true
  | _ => false
  end.

Fixpoint after_first_await (tr : list event) : list event :=
  match tr with
  | [] => []
  | EAwait _ :: rest => rest
  | _ :: rest => after_first_await rest
  end.

(** Every message and close listener is registered before the
    'connection' listener first hands control back. *)
Definition registered_before_yield (tr : list event) : bool :=
  forallb (fun e => negb (is_router_registration e)) (after_first_await tr).

(** ** The heartbeat ([startHeartBeat]) *)

(** The body of the [forEach] callback. *)
Definition heartbeat_sweep (socket : IMidwayWSContext) : M IMidwayWSContext :=
  if strict_eq_false (isAlive socket)
  then log Debug "[ws]: socket terminate" None ;;
       emit_event (ETerminate (sock_id socket)) ;;
       ret socket
  else emit_event (EPing (sock_id socket)) ;;
       ret (set_isAlive socket (VBool false)).

(** One tick of the interval: the sweep over [this.app.clients]. *)
Fixpoint heartbeat_tick (clients : list IMidwayWSContext) : M (list IMidwayWSContext) :=
  match clients with
  | [] => ret []
  | socket :: rest =>
      socket' ← heartbeat_sweep socket;
      rest' ← heartbeat_tick rest;
      ret (socket' :: rest')
  end.

(** What the monitor sees of one connection over time: ticks of the
    interval and pongs received. *)
Inductive heartbeat_event := Tick | PongReceived.

Definition heartbeat_step (fw : MidwayWSFramework) (clients : list IMidwayWSContext)
    (conn : connection) (ev : heartbeat_event) : M connection :=
  match ev with
  | Tick => socket ← heartbeat_sweep conn.1; ret (socket, conn.2)
  | PongReceived => socket_emit fw clients conn "pong" []
  end.

Fixpoint heartbeat_run (fw : MidwayWSFramework) (clients : list IMidwayWSContext)
    (conn : connection) (history : list heartbeat_event) : M connection :=
  match history with
  | [] => ret conn
  | ev :: rest =>
      conn' ← heartbeat_step fw clients conn ev;
      heartbeat_run fw clients conn' rest
  end.

(** Two consecutive probe intervals went by unanswered: two ticks with no
    pong between them. *)
Definition two_missed_intervals (history : list heartbeat_event) : Prop :=
  exists before after, history = before ++ Tick :: Tick :: after.

(** The pong listener of [addNamespace] is on the socket. *)
Definition monitored (socket : IMidwayWSContext) : bool :=
  existsb is_pong (listeners_for "pong" socket).

(** ** Sample data used to exercise the definitions *)

Definition sample_socket (id : nat) (st : ReadyState) : IMidwayWSContext :=
  {| sock_id := id; readyState := st; isAlive := VBool true; listeners := [] |}.

Definition sample_info (name : string) (kind : WSEventTypeEnum) : WSEventInfo :=
  {| propertyName := name; eventType := kind;
     messageEventName := "message"; eventMiddleware := [] |}.

Definition sample_clients : list IMidwayWSContext :=
  [sample_socket 1 OPEN; sample_socket 2 CLOSED; sample_socket 3 OPEN].

Definition singleton_table (name : string) (evs : list WSEventInfo) :
    gmap string method_entry :=
  {[ name := {| responseEvents := evs |} ]}.

(** A controller with one method per event kind; [onConnect] and
    [onMessage] return an object, [onClose] returns nothing. *)
Definition sample_controller (name : string) (args : list value) : outcome value :=
  if String.eqb name "onConnect" then Returns (VObj 10)
  else if String.eqb name "onMessage" then Returns (VObj 11)
  else if String.eqb name "failing" then Throws (Thrown (VStr "boom"))
  else Returns VUndefined.

Definition sample_framework (infos : list WSEventInfo) (connectionMw : list mw)
    (guard : string -> outcome bool) : MidwayWSFramework :=
  {| controller := sample_controller;
     runGuard := guard;
     frameworkMiddleware := [];
     connectionMiddlewareManager := connectionMw;
     controllerMiddleware := [];
     controllerConnectionMiddleware := [];
     wsEventInfos := infos;
     upgradeAuthHandler := None;
     handshake := fun request => Some request |}.

Definition pass_through : mw :=
  MwNext (fun o => match o with Returns v => MwReturn v | Throws e => MwThrow e end).

Definition new_socket (id : nat) : IMidwayWSContext :=
  {| sock_id := id; readyState := OPEN; isAlive := VUndefined; listeners := [] |}.

(** A new socket once the 'connection' listener has reached its first
    await. *)
Definition accepted_socket (id : nat) : IMidwayWSContext :=
  add_listeners (set_isAlive (new_socket id) (VBool true))
    [("error", LError); ("pong", LPong)].

(** One message handler, no connection middleware of its own. *)
Definition late_listener_framework : MidwayWSFramework :=
  sample_framework [sample_info "onMessage" ON_MESSAGE] [] (fun _ => Returns true).

Definition deny_all : nat -> outcome value := fun _ => Returns (VBool false).

Definition failing_auth : nat -> outcome value := fun _ => Throws (Thrown (VStr "boom")).

Definition sample_gate (handler : nat -> outcome value) : MidwayWSFramework :=
  {| controller := sample_controller;
     runGuard := fun _ => Returns true;
     frameworkMiddleware := [];
     connectionMiddlewareManager := [];
     controllerMiddleware := [];
     controllerConnectionMiddleware := [];
     wsEventInfos := [];
     upgradeAuthHandler := Some handler;
     handshake := fun request => Some request |}.

(** ** The rest of the class *)

(** [loadMidwayController]: of the controller classes listed under
    [WS_CONTROLLER_KEY] only the first gets a namespace, and with none
    listed [addNamespace] is not called at all. The result is the class
    whose 'connection' listener is on [this.app]. *)
Definition loadMidwayController {T} (controllerModules : list T) : option T :=
  if (0 <? length controllerModules)%nat then controllerModules !! 0%nat else None.

(** [this.app.emit('connection', ws, request)] (line 130): the listener of
    [addNamespace] runs if [loadMidwayController] put one there. *)
Definition emit_connection (namespace : option MidwayWSFramework)
    (clients : list IMidwayWSContext) (socket : IMidwayWSContext) (request : nat) :
    M connection :=
  match namespace with
  | Some fw => on_connection fw clients socket request
  | None => ret (socket, ∅)
  end.

(** ** Vocabulary for the further statements *)

(** The answer of the registered predicate, if any, is a rejection. *)
Definition gate_rejects (fw : MidwayWSFramework) (request : nat) : bool :=
  match upgradeAuthHandler fw with
  | Some handler => rejects (handler request)
  | None => false
  end.

(** What one response descriptor makes the binder send. *)
Definition policy_sends (clients : list IMidwayWSContext) (socket : IMidwayWSContext)
    (p : payload) (wsEventInfo : WSEventInfo) : list event :=
  match eventType wsEventInfo with
  | EMIT => [ESend (sock_id socket) p]
  | BROADCAST => map (fun c => ESend (sock_id c) p) (open_clients clients)
  | _ => []
  end.

Definition is_emit (kind : WSEventTypeEnum) : bool :=
  match kind with EMIT => true | _ => false end.

Definition is_broadcast (kind : WSEventTypeEnum) : bool :=
  match kind with BROADCAST => true | _ => false end.

Definition count_emit (evs : list WSEventInfo) : nat :=
  length (filter (fun i => is_emit (eventType i) = true) evs).

Definition count_broadcast (evs : list WSEventInfo) : nat :=
  length (filter (fun i => is_broadcast (eventType i) = true) evs).

(** The handler calls of a trace, in order. *)
Definition invokes_of (tr : list event) : list (string * list value) :=
  omap (fun e => match e with EInvoke name args => Some (name, args) | _ => None end) tr.

(** An on-connection descriptor whose guard lets the call through. *)
Definition connects (fw : MidwayWSFramework) (wsEventInfo : WSEventInfo) : bool :=
  match eventType wsEventInfo, runGuard fw (propertyName wsEventInfo) with
  | ON_CONNECTION, Returns true => true
  | _, _ => false
  end.

Definition is_tick (ev : heartbeat_event) : bool :=
  match ev with Tick => true | PongReceived => false end.

Definition count_ticks (history : list heartbeat_event) : nat :=
  length (filter (fun ev => is_tick ev = true) history).

Definition is_message (kind : WSEventTypeEnum) : bool :=
  match kind with ON_MESSAGE => true | _ => false end.

(** The message descriptors bound to an event name, in declaration
    order. *)
Definition message_descriptors_for (eventName : string) (infos : list WSEventInfo) :
    list WSEventInfo :=
  filter (fun i => is_message (eventType i) = true /\ messageEventName i = eventName) infos.

Definition is_ack (e : event) : bool :=
  match e with EAck _ _ => true | _ => false end.

(** Every kind of descriptor, two of them for the same message event,
    with the response descriptors of [onConnect] on both sides of it. *)
Definition full_framework : MidwayWSFramework :=
  sample_framework
    [sample_info "onConnect" EMIT;
     sample_info "onConnect" ON_CONNECTION;
     sample_info "onConnect" BROADCAST;
     sample_info "onMessage" ON_MESSAGE;
     sample_info "onMessage" EMIT;
     sample_info "onClose" ON_DISCONNECTION]
    [pass_through] (fun _ => Returns true).

(** A response descriptor on a method named like a member of
    [Object.prototype], between an on-connection handler and a message
    handler. *)
Definition inherited_name_framework : MidwayWSFramework :=
  sample_framework
    [sample_info "onConnect" ON_CONNECTION;
     sample_info "toString" EMIT;
     sample_info "onConnect" ON_CONNECTION;
     sample_info "onMessage" ON_MESSAGE]
    [] (fun _ => Returns true).

(** ** Tactics *)

(** Membership and non-membership in a trace that has been computed. *)
Ltac in_trace := apply list_elem_of_In; simpl; tauto.
Ltac not_in_trace :=
  let H := fresh "Hin" in
  intros H; apply list_elem_of_In in H; simpl in H;
  repeat (destruct H as [H | H]; [discriminate H|]); exact H.
Ltac split_trace_facts :=
  repeat match goal with
         | |- _ /\ _ => split
         | |- forall _, _ ∉ _ => intros ?
         | |- _ ∉ _ => not_in_trace
         | |- _ ∈ _ => in_trace
         | |- _ = _ => reflexivity
         end.

(** ** Basic facts on the monad *)

Lemma bind_unfold {A B} (m : M A) (k : A -> M B) :
  (m ≫= k) = bind m k.
Proof. reflexivity. Qed.

Lemma bind_returns {A B} tr (a : A) (k : A -> M B) :
  bind (tr, Returns a) k = (tr ++ (k a).1, (k a).2).
Proof. simpl. by destruct (k a). Qed.

Lemma for_each_returns {A} (l : list A) (f : A -> M unit) :
  (forall x, outcome_of (f x) = Returns tt) ->
  for_each l f = (concat (map (fun x => trace_of (f x)) l), Returns tt).
Proof.
  intros Hf. induction l as [|x l IH]; [done|].
  simpl. rewrite bind_unfold. specialize (Hf x).
  destruct (f x) as [tr o]. simpl in Hf. subst o.
  rewrite bind_returns, IH. done.
Qed.

Lemma broadcast_trace clients p :
  for_each clients (fun client =>
    if is_open (readyState client) then send client p else ret tt)
  = (map (fun c => ESend (sock_id c) p) (open_clients clients), Returns tt).
Proof.
  rewrite for_each_returns; [|by intros x; destruct (is_open _)].
  f_equal. induction clients as [|c cs IH]; [done|].
  unfold open_clients in *. rewrite filter_cons. simpl.
  case_decide as E.
  - rewrite E. simpl. by rewrite IH.
  - destruct (is_open (readyState c)); [done|]. simpl. by rewrite IH.
Qed.

Lemma sends_to_app ws tr1 tr2 :
  sends_to ws (tr1 ++ tr2) = sends_to ws tr1 ++ sends_to ws tr2.
Proof. unfold sends_to. apply omap_app. Qed.

Lemma NoDup_map_inj_on {A B} (f : A -> B) (l : list A) x y :
  NoDup (map f l) -> x ∈ l -> y ∈ l -> f x = f y -> x = y.
Proof.
  induction l as [|a l IH]; intros Hnd Hx Hy Hf.
  { by apply elem_of_nil in Hx. }
  simpl in Hnd. apply NoDup_cons in Hnd as [Hnotin Hnd].
  apply elem_of_cons in Hx as [->|Hx]; apply elem_of_cons in Hy as [->|Hy].
  - done.
  - exfalso. apply Hnotin. rewrite Hf. by apply list_elem_of_fmap_2.
  - exfalso. apply Hnotin. rewrite <- Hf. by apply list_elem_of_fmap_2.
  - by apply IH.
Qed.

Lemma sends_to_broadcast_other ws p (cs : list IMidwayWSContext) :
  (forall c, c ∈ cs -> is_open (readyState c) = true -> sock_id c ≠ ws) ->
  sends_to ws (map (fun c => ESend (sock_id c) p) (open_clients cs)) = [].
Proof.
  induction cs as [|c cs IH]; intros Hne; [done|].
  unfold open_clients in *. rewrite filter_cons. case_decide as E.
  - simpl. rewrite decide_False by (apply Hne; [left|done]).
    apply IH. intros c' Hin. apply Hne. by right.
  - apply IH. intros c' Hin. apply Hne. by right.
Qed.

Lemma sends_to_broadcast_member p (cs : list IMidwayWSContext) c :
  NoDup (map sock_id cs) -> c ∈ cs -> is_open (readyState c) = true ->
  sends_to (sock_id c) (map (fun c => ESend (sock_id c) p) (open_clients cs)) = [p].
Proof.
  induction cs as [|c0 cs IH]; intros Hnd Hin Hopen.
  { by apply elem_of_nil in Hin. }
  simpl in Hnd. apply NoDup_cons in Hnd as [Hnotin Hnd].
  apply elem_of_cons in Hin as [->|Hin].
  - unfold open_clients. rewrite filter_cons, decide_True by done.
    simpl. rewrite decide_True by done. f_equal.
    apply sends_to_broadcast_other. intros c' Hc' _ Heq.
    apply Hnotin. rewrite <- Heq. by apply list_elem_of_fmap_2.
  - assert (sock_id c0 ≠ sock_id c) as Hne.
    { intros Heq. apply Hnotin. rewrite Heq. by apply list_elem_of_fmap_2. }
    unfold open_clients in *. rewrite filter_cons. case_decide.
    + simpl. rewrite decide_False by done. by apply IH.
    + by apply IH.
Qed.

(** C4. A response-table entry made of an emit and a broadcast descriptor
    and a truthy result: the binder sends once to the originating
    connection for the emit descriptor and once to every client whose
    readyState is OPEN for the broadcast descriptor, in the order of the
    two descriptors; a client that is not OPEN (and is not the originator)
    gets nothing, an OPEN client other than the originator gets the
    payload once, and the originator, when it is an OPEN client, gets it
    twice. *)
Theorem bindSocketResponse_emit_and_broadcast
    clients result socket name (methodMap : gmap string method_entry) e b evs :
  truthy result = true ->
  eventType e = EMIT -> eventType b = BROADCAST ->
  evs = [e; b] \/ evs = [b; e] ->
  methodMap !! name = Some {| responseEvents := evs |} ->
  NoDup (map sock_id clients) ->
  let p := formatResult result in
  let broadcast := map (fun c => ESend (sock_id c) p) (open_clients clients) in
  let run := bindSocketResponse clients result socket name methodMap in
  outcome_of run = Returns tt
  /\ (evs = [e; b] -> trace_of run = ESend (sock_id socket) p :: broadcast)
  /\ (evs = [b; e] -> trace_of run = broadcast ++ [ESend (sock_id socket) p])
  /\ (forall c, c ∈ clients -> is_open (readyState c) = false ->
        sock_id c ≠ sock_id socket -> sends_to (sock_id c) (trace_of run) = [])
  /\ (forall c, c ∈ clients -> is_open (readyState c) = true ->
        sock_id c ≠ sock_id socket -> sends_to (sock_id c) (trace_of run) = [p])
  /\ (socket ∈ clients -> is_open (readyState socket) = true ->
        sends_to (sock_id socket) (trace_of run) = [p; p]).
Proof.
  intros Ht He Hb Hevs Hmm Hnd p broadcast run.
  assert (run = (ESend (sock_id socket) p :: broadcast, Returns tt) /\ evs = [e; b]
          \/ run = (broadcast ++ [ESend (sock_id socket) p], Returns tt) /\ evs = [b; e])
    as Hrun.
  { subst run. unfold bindSocketResponse, get_property. rewrite Ht, Hmm. simpl.
    destruct Hevs as [-> | ->]; [left | right]; split; try done; simpl;
      rewrite He, Hb, !bind_unfold, broadcast_trace; simpl;
      fold p; fold broadcast; by rewrite ?app_nil_r. }
  assert (forall ws, sends_to ws (trace_of run) =
            (if decide (sock_id socket = ws) then [p] else []) ++ sends_to ws broadcast
          \/ sends_to ws (trace_of run) =
            sends_to ws broadcast ++ (if decide (sock_id socket = ws) then [p] else []))
    as Hsends.
  { intros ws. destruct Hrun as [[-> _] | [-> _]]; [left | right]; simpl.
    - by destruct (decide _).
    - rewrite sends_to_app. simpl. by destruct (decide _). }
  split; [by destruct Hrun as [[-> _] | [-> _]]|].
  split; [intros ->; destruct Hrun as [[-> _] | [_ ?]]; [done | congruence]|].
  split; [intros ->; destruct Hrun as [[_ ?] | [-> _]]; [congruence | done]|].
  split; [|split].
  - intros c Hin Hclosed Hne.
    assert (sends_to (sock_id c) broadcast = []) as Hbc.
    { apply sends_to_broadcast_other. intros c' Hc' Hopen Heq.
      assert (c' = c) as ->; [|congruence].
      by apply (NoDup_map_inj_on sock_id clients). }
    destruct (Hsends (sock_id c)) as [-> | ->]; rewrite Hbc;
      by rewrite decide_False by done.
  - intros c Hin Hopen Hne.
    assert (sends_to (sock_id c) broadcast = [p]) as Hbc
      by (by apply sends_to_broadcast_member).
    destruct (Hsends (sock_id c)) as [-> | ->]; rewrite Hbc;
      by rewrite decide_False by done.
  - intros Hin Hopen.
    assert (sends_to (sock_id socket) broadcast = [p]) as Hbc
      by (by apply sends_to_broadcast_member).
    destruct (Hsends (sock_id socket)) as [-> | ->]; rewrite Hbc;
      by rewrite decide_True by done.
Qed.

Lemma bindSocketResponse_emit_and_broadcast_witness :
  let run := bindSocketResponse sample_clients (VObj 7) (sample_socket 1 OPEN) "onMessage"
               (singleton_table "onMessage"
                  [sample_info "onMessage" EMIT; sample_info "onMessage" BROADCAST]) in
  trace_of run = [ESend 1 (JSON_stringify (VObj 7)); ESend 1 (JSON_stringify (VObj 7));
                  ESend 3 (JSON_stringify (VObj 7))]
  /\ sends_to 1 (trace_of run) = [JSON_stringify (VObj 7); JSON_stringify (VObj 7)].
Proof.
  pose proof (bindSocketResponse_emit_and_broadcast
    sample_clients (VObj 7) (sample_socket 1 OPEN) "onMessage"
    (singleton_table "onMessage"
       [sample_info "onMessage" EMIT; sample_info "onMessage" BROADCAST])
    (sample_info "onMessage" EMIT) (sample_info "onMessage" BROADCAST)
    [sample_info "onMessage" EMIT; sample_info "onMessage" BROADCAST]
    eq_refl eq_refl eq_refl (or_introl eq_refl)) as H.
  specialize (H ltac:(apply lookup_singleton_eq)).
  specialize (H ltac:(apply (bool_decide_unpack _); vm_compute; exact I)).
  destruct H as (_ & Hemit & _ & _ & _ & Htwice).
  split.
  - apply (Hemit eq_refl).
  - apply Htwice; [apply list_elem_of_here | reflexivity].
Defined.

Lemma bindSocketResponse_no_descriptor
    clients result socket name (methodMap : gmap string method_entry) :
  truthy result = true ->
  get_property methodMap name = Undefined
  \/ get_property methodMap name = Own {| responseEvents := [] |} ->
  bindSocketResponse clients result socket name methodMap
  = ([ESend (sock_id socket) (formatResult result)], Returns tt).
Proof.
  intros Ht Hmm. unfold bindSocketResponse. rewrite Ht. simpl.
  by destruct Hmm as [-> | ->].
Qed.

(** On a name that reads as a member of [Object.prototype] the binder
    fails before it sends anything. *)
Lemma bindSocketResponse_inherited
    clients result socket name (methodMap : gmap string method_entry) :
  truthy result = true ->
  get_property methodMap name = Inherited ->
  bindSocketResponse clients result socket name methodMap = ([], Throws TypeError).
Proof. intros Ht Hmm. unfold bindSocketResponse. by rewrite Ht, Hmm. Qed.

Lemma bindSocketResponse_entry clients result socket name
    (methodMap : gmap string method_entry) evs :
  truthy result = true ->
  methodMap !! name = Some {| responseEvents := evs |} ->
  bindSocketResponse clients result socket name methodMap
  = (concat (map (policy_sends clients socket (formatResult result)) evs)
       ++ (if (length evs =? 0)%nat then [ESend (sock_id socket) (formatResult result)]
           else []),
     Returns tt).
Proof.
  intros Ht Hmm. unfold bindSocketResponse, get_property. rewrite Ht, Hmm.
  cbn [negb responseEvents].
  rewrite bind_unfold, for_each_returns.
  - rewrite bind_returns. f_equal.
    + f_equal.
      * f_equal. apply map_ext. intros i. unfold policy_sends.
        destruct (eventType i); try done. by rewrite broadcast_trace.
      * by destruct (length evs =? 0)%nat.
    + by destruct (length evs =? 0)%nat.
  - intros i. destruct (eventType i); try done. by rewrite broadcast_trace.
Qed.

Lemma get_property_plain (methodMap : gmap string method_entry) name :
  object_prototype_member name = false ->
  get_property methodMap name
  = match methodMap !! name with Some entry => Own entry | None => Undefined end.
Proof. intros H. unfold get_property. by rewrite H. Qed.

(** C5. A truthy result for a method with no response descriptor, whether
    the table has no entry for the method (and the method is not named
    like a member of [Object.prototype], which the lookup would find
    instead) or an entry whose list of response events is empty: the
    binder sends the formatted result to the originating connection,
    once, and sends nothing else. *)
Theorem bindSocketResponse_default_emit
    clients result socket name (methodMap : gmap string method_entry) :
  truthy result = true ->
  (methodMap !! name = None /\ object_prototype_member name = false)
  \/ methodMap !! name = Some {| responseEvents := [] |} ->
  bindSocketResponse clients result socket name methodMap
  = ([ESend (sock_id socket) (formatResult result)], Returns tt).
Proof.
  intros Ht Hmm. apply bindSocketResponse_no_descriptor; [done|].
  unfold get_property. destruct Hmm as [[-> ->] | ->]; [by left | by right].
Qed.

Lemma bindSocketResponse_default_emit_witness :
  bindSocketResponse sample_clients (VStr "pong") (sample_socket 2 CLOSED) "onMessage" ∅
  = ([ESend 2 (Raw (VStr "pong"))], Returns tt)
  /\ bindSocketResponse sample_clients (VStr "pong") (sample_socket 2 CLOSED) "onMessage"
       (singleton_table "onMessage" [])
  = ([ESend 2 (Raw (VStr "pong"))], Returns tt).
Proof.
  split.
  - apply (bindSocketResponse_default_emit sample_clients (VStr "pong")
             (sample_socket 2 CLOSED) "onMessage" ∅ eq_refl).
    left. split; [apply lookup_empty | reflexivity].
  - apply (bindSocketResponse_default_emit sample_clients (VStr "pong")
             (sample_socket 2 CLOSED) "onMessage" (singleton_table "onMessage" []) eq_refl).
    right. apply lookup_singleton_eq.
Defined.

(** A handler named like a member of [Object.prototype] is in neither
    case: on the empty table its name reads as the inherited member, and
    the binder fails without sending. *)
Example binder_fails_on_inherited_name :
  bindSocketResponse sample_clients (VStr "pong") (sample_socket 2 CLOSED) "toString" ∅
  = ([], Throws TypeError).
Proof. reflexivity. Qed.

(** C10. A falsy result ([undefined], [null], [false], [0], [-0], [NaN],
    [0n], the empty string) makes the binder return at once: nothing is
    sent to any connection, whatever the response table holds. *)
Theorem bindSocketResponse_falsy_no_send
    clients result socket name (methodMap : gmap string method_entry) :
  result ∈ [VUndefined; VNull; VBool false; VNum (Dyadic 0 0); VNum NegZero;
            VNum NaN; VBigInt 0; VStr ""]
  \/ truthy result = false ->
  truthy result = false
  /\ bindSocketResponse clients result socket name methodMap = ([], Returns tt).
Proof.
  intros H.
  assert (truthy result = false) as Hf.
  { destruct H as [H|H]; [|done].
    repeat (apply elem_of_cons in H as [->|H]; [done|]).
    by apply elem_of_nil in H. }
  split; [done|]. unfold bindSocketResponse. by rewrite Hf.
Qed.

Lemma bindSocketResponse_falsy_no_send_witness :
  truthy (VNum (Dyadic 0 0)) = false
  /\ bindSocketResponse sample_clients (VNum (Dyadic 0 0)) (sample_socket 1 OPEN)
       "onMessage"
       (singleton_table "onMessage"
          [sample_info "onMessage" EMIT; sample_info "onMessage" BROADCAST])
     = ([], Returns tt).
Proof.
  apply (bindSocketResponse_falsy_no_send sample_clients (VNum (Dyadic 0 0))
           (sample_socket 1 OPEN) "onMessage").
  right. reflexivity.
Defined.

(** ** The upgrade gate *)

Lemma onWebSocketUpgrade_installs fw handler :
  exists fw', onWebSocketUpgrade fw handler = ([ELog Info (match handler with
            | Some _ => "[midway:ws] WebSocket upgrade authentication handler set"
            | None => "[midway:ws] WebSocket upgrade authentication handler removed"
            end) None], Returns fw')
    /\ upgradeAuthHandler fw' = handler /\ handshake fw' = handshake fw.
Proof. eexists. split; [reflexivity|]. done. Qed.

(** C1. With a predicate registered, an answer that is falsy and an
    answer that is a raised failure both end the 'upgrade' listener the
    same way: it returns normally, the raw socket is destroyed, neither
    [handleUpgrade] is called nor a 'connection' event emitted, and apart
    from the log lines the two paths leave the same trace. With no
    predicate registered the listener goes straight to [handleUpgrade]. *)
Theorem upgrade_gate_rejects fw request rawSocket :
  (forall handler,
      upgradeAuthHandler fw = Some handler ->
      rejects (handler request) = true ->
      let run := upgrade_listener fw request rawSocket in
      outcome_of run = Returns tt
      /\ visible (trace_of run) = [EDestroy rawSocket]
      /\ EDestroy rawSocket ∈ trace_of run
      /\ (forall ws, EEmitConnection ws ∉ trace_of run)
      /\ (forall s, EHandleUpgrade s ∉ trace_of run))
  /\ (upgradeAuthHandler fw = None ->
      upgrade_listener fw request rawSocket
      = (EHandleUpgrade rawSocket ::
           match handshake fw request with
           | Some ws => [EEmitConnection ws]
           | None => []
           end, Returns tt)).
Proof.
  split.
  - intros handler Hh Hrej run. subst run. unfold upgrade_listener. rewrite Hh.
    destruct (handler request) as [authResult | error] eqn:Hres; simpl in Hrej.
    + apply negb_true_iff in Hrej.
      simpl. rewrite Hrej. simpl. split_trace_facts.
    + simpl. split_trace_facts.
  - intros Hnone. unfold upgrade_listener. rewrite Hnone. simpl.
    by destruct (handshake fw request).
Qed.

Lemma upgrade_gate_rejects_witness :
  visible (trace_of (upgrade_listener (sample_gate deny_all) 100 5)) = [EDestroy 5]
  /\ visible (trace_of (upgrade_listener (sample_gate failing_auth) 100 5)) = [EDestroy 5].
Proof.
  split.
  - apply (proj1 (upgrade_gate_rejects (sample_gate deny_all) 100 5)
             deny_all eq_refl eq_refl).
  - apply (proj1 (upgrade_gate_rejects (sample_gate failing_auth) 100 5)
             failing_auth eq_refl eq_refl).
Defined.

(** ** Trace invariants *)

Section TraceInvariant.
Variable P : event -> Prop.

Lemma Forall_bind {A B} (m : M A) (k : A -> M B) :
  Forall P (trace_of m) -> (forall a, Forall P (trace_of (k a))) ->
  Forall P (trace_of (m ≫= k)).
Proof.
  intros Hm Hk. rewrite bind_unfold. destruct m as [tr [a|e]]; simpl in *; [|done].
  specialize (Hk a). destruct (k a) as [tr' o]. simpl in *. by apply Forall_app.
Qed.

Lemma Forall_try_catch {A} (body : M A) (handler : exn -> M A) :
  Forall P (trace_of body) -> (forall e, Forall P (trace_of (handler e))) ->
  Forall P (trace_of (try_catch body handler)).
Proof.
  intros Hb Hh. destruct body as [tr [a|e]]; simpl in *; [done|].
  specialize (Hh e). destruct (handler e) as [tr' o]. simpl in *. by apply Forall_app.
Qed.

Lemma Forall_emit_event e : P e -> Forall P (trace_of (emit_event e)).
Proof. intros He. simpl. by constructor. Qed.

Lemma Forall_ret {A} (a : A) : Forall P (trace_of (ret a)).
Proof. constructor. Qed.

Lemma Forall_for_each {A} (l : list A) (f : A -> M unit) :
  (forall x, Forall P (trace_of (f x))) -> Forall P (trace_of (for_each l f)).
Proof.
  intros Hf. induction l as [|x l IH]; [constructor|].
  simpl. apply Forall_bind; [apply Hf | by intros _].
Qed.

Lemma Forall_run_mw m next :
  Forall P (trace_of next) -> Forall P (trace_of (run_mw m next)).
Proof.
  intros Hn. induction m as [v|e|k IH]; simpl; try constructor.
  apply Forall_app. split; [done | apply IH].
Qed.

Lemma Forall_compose_mw (ms : list mw) (last : middleware) next :
  (forall n, Forall P (trace_of (last n))) ->
  Forall P (trace_of (compose (map run_mw ms ++ [last]) next)).
Proof.
  intros Hl. induction ms as [|m ms IH]; simpl; [apply Hl|].
  by apply Forall_run_mw.
Qed.

Lemma Forall_compose_mw_plain (ms : list mw) next :
  Forall P (trace_of next) ->
  Forall P (trace_of (compose (map run_mw ms) next)).
Proof.
  intros Hn. induction ms as [|m ms IH]; simpl; [done|]. by apply Forall_run_mw.
Qed.

Lemma Forall_awaiting {A} p (e : M A) :
  P (EAwait p) -> Forall P (trace_of e) -> Forall P (trace_of (awaiting p e)).
Proof.
  intros Hp He. unfold awaiting. apply Forall_bind; [by apply Forall_emit_event | done].
Qed.

Lemma Forall_invoke fw name args :
  P (EInvoke name args) -> Forall P (trace_of (invoke fw name args)).
Proof.
  intros Hi. unfold invoke. apply Forall_bind; [by apply Forall_emit_event|].
  intros _. constructor.
Qed.

Lemma Forall_bindSocketResponse clients result socket name
    (methodMap : gmap string method_entry) :
  (forall ws p, P (ESend ws p)) ->
  Forall P (trace_of (bindSocketResponse clients result socket name methodMap)).
Proof.
  intros Hs. unfold bindSocketResponse.
  destruct (negb (truthy result)); [constructor|].
  assert (forall s p, Forall P (trace_of (send s p))) as Hsend
    by (intros; by apply Forall_emit_event).
  destruct (get_property methodMap name) as [entry| |]; [|constructor|apply Hsend].
  apply Forall_bind.
  - apply Forall_for_each. intros i.
    destruct (eventType i); [constructor | constructor | constructor | apply Hsend |].
    apply Forall_for_each. intros c. destruct (is_open _); [apply Hsend | constructor].
  - intros _. destruct (_ =? _)%nat; [apply Hsend | constructor].
Qed.

Lemma bind_awaiting_ret {A B} p (x : A) (k : A -> M B) :
  (awaiting p (ret x) ≫= k) = (EAwait p :: trace_of (k x), outcome_of (k x)).
Proof. rewrite bind_unfold. unfold awaiting. simpl. by destruct (k x). Qed.

Lemma awaiting_unfold {A} p (e : M A) :
  awaiting p e = (EAwait p :: trace_of e, outcome_of e).
Proof. unfold awaiting. rewrite bind_unfold. simpl. by destruct e. Qed.

Lemma Forall_bind_awaiting_ret {A B} p (x : A) (k : A -> M B) :
  P (EAwait p) -> Forall P (trace_of (k x)) ->
  Forall P (trace_of (awaiting p (ret x) ≫= k)).
Proof. intros Hp Hk. rewrite bind_awaiting_ret. by constructor. Qed.

Lemma Forall_message_pipeline fw wsEventInfo args :
  P (EAwait AwCompose) -> P (EAwait AwPipeline) ->
  P (EInvoke (propertyName wsEventInfo) args) ->
  Forall P (trace_of (message_pipeline fw wsEventInfo args)).
Proof.
  intros Hc Hp Hi. unfold message_pipeline.
  apply Forall_bind_awaiting_ret; [done|]. apply Forall_awaiting; [done|].
  unfold applyMiddleware. apply Forall_compose_mw. intros n.
  apply Forall_bind_awaiting_ret; [done|]. apply Forall_awaiting; [done|].
  rewrite app_assoc, <- map_app. apply Forall_compose_mw.
  intros _. by apply Forall_invoke.
Qed.

Lemma Forall_guarded_handler fw socket request wsEventInfo :
  P (EAwait AwGuard) ->
  (runGuard fw (propertyName wsEventInfo) = Returns true ->
   P (EInvoke (propertyName wsEventInfo) [VObj (sock_id socket); VObj request])) ->
  Forall P (trace_of (guarded_handler fw socket request wsEventInfo)).
Proof.
  intros Hg Hi. unfold guarded_handler. rewrite awaiting_unfold, bind_unfold.
  destruct (runGuard fw (propertyName wsEventInfo)) as [[|]|e]; simpl.
  - unfold invoke, of_outcome. simpl. repeat constructor; auto.
  - by repeat constructor.
  - by repeat constructor.
Qed.

Lemma Forall_connection_pipeline fw socket request wsEventInfo :
  P (EAwait AwCompose) -> P (EAwait AwPipeline) -> P (EAwait AwGuard) ->
  (runGuard fw (propertyName wsEventInfo) = Returns true ->
   P (EInvoke (propertyName wsEventInfo) [VObj (sock_id socket); VObj request])) ->
  Forall P (trace_of (connection_pipeline fw socket request wsEventInfo)).
Proof.
  intros Hc Hp Hg Hi. unfold connection_pipeline.
  apply Forall_bind_awaiting_ret; [done|]. apply Forall_awaiting; [done|].
  apply Forall_compose_mw. intros _. by apply Forall_guarded_handler.
Qed.

End TraceInvariant.

(** Every event of a dispatch is one a dispatch may issue. *)
Lemma dispatch_events_on_connection fw clients socket request wsEventInfo methodMap :
  Forall (fun e => dispatch_event e = true)
    (trace_of (on_connection_dispatch fw clients socket request wsEventInfo methodMap)).
Proof.
  unfold on_connection_dispatch. apply Forall_try_catch.
  - apply Forall_bind; [by apply Forall_connection_pipeline|].
    intros result. apply Forall_awaiting; [done|].
    by apply Forall_bindSocketResponse.
  - intros e. by apply Forall_emit_event.
Qed.

Lemma call_ack_function cb result :
  is_function cb = true ->
  exists f, cb = VFun f /\ call_ack cb result = ([EAck f result], Returns tt).
Proof. destruct cb; try done. intros _. by eexists. Qed.

Lemma dispatch_events_message fw clients socket wsEventInfo methodMap args :
  Forall (fun e => dispatch_event e = true)
    (trace_of (message_listener fw clients socket wsEventInfo methodMap args)).
Proof.
  unfold message_listener. apply Forall_bind; [by apply Forall_emit_event|].
  intros _. apply Forall_try_catch.
  - apply Forall_bind; [by apply Forall_message_pipeline|].
    intros result. destruct (is_function (last_arg args)) eqn:Hf.
    + destruct (call_ack_function _ result Hf) as (f & _ & ->). by repeat constructor.
    + apply Forall_awaiting; [done|]. by apply Forall_bindSocketResponse.
  - intros e. by apply Forall_emit_event.
Qed.

Lemma dispatch_events_close fw clients socket wsEventInfo methodMap reason :
  Forall (fun e => dispatch_event e = true)
    (trace_of (close_listener fw clients socket wsEventInfo methodMap reason)).
Proof.
  unfold close_listener. apply Forall_try_catch.
  - apply Forall_bind.
    + apply Forall_awaiting; [done|]. by apply Forall_invoke.
    + intros result. apply Forall_awaiting; [done|]. by apply Forall_bindSocketResponse.
  - intros e. by apply Forall_emit_event.
Qed.

(** A [try] whose [catch] only logs returns normally, and logs the
    failure of its body last. *)
Lemma try_catch_log_returns (body : M unit) :
  outcome_of (try_catch body (fun err => log Error "" (Some err))) = Returns tt.
Proof. by destruct body as [tr [[]|e]]. Qed.

Lemma try_catch_log_failure {A} (m : M A) (k : A -> M unit) e :
  outcome_of m = Throws e ->
  try_catch (m ≫= k) (fun err => log Error "" (Some err))
  = (trace_of m ++ [ELog Error "" (Some e)], Returns tt).
Proof. destruct m as [tr [a|e']]; simpl; [done|]. by intros [= ->]. Qed.

Lemma on_connection_dispatch_returns fw clients socket request wsEventInfo methodMap :
  outcome_of (on_connection_dispatch fw clients socket request wsEventInfo methodMap)
  = Returns tt.
Proof. apply try_catch_log_returns. Qed.

Lemma message_listener_returns fw clients socket wsEventInfo methodMap args :
  outcome_of (message_listener fw clients socket wsEventInfo methodMap args) = Returns tt.
Proof.
  unfold message_listener. rewrite bind_unfold. unfold log, emit_event.
  rewrite bind_returns. apply try_catch_log_returns.
Qed.

Lemma close_listener_returns fw clients socket wsEventInfo methodMap reason :
  outcome_of (close_listener fw clients socket wsEventInfo methodMap reason) = Returns tt.
Proof. apply try_catch_log_returns. Qed.

Lemma then_ret_returns {A} (m : M unit) (a : A) :
  outcome_of m = Returns tt -> (m ;; ret a) = (trace_of m, Returns a).
Proof.
  destruct m as [tr [[]|e]]; simpl; [|done]. intros _. by rewrite app_nil_r.
Qed.

(** Firing a listener never fails, leaves the registered listeners and
    the response table as they were, and touches [isAlive] only through
    the pong listener. *)
Lemma fire_returns fw clients (conn : connection) l args :
  exists tr conn',
    fire fw clients conn l args = (tr, Returns conn')
    /\ Forall (fun e => dispatch_event e = true) tr
    /\ listeners conn'.1 = listeners conn.1
    /\ sock_id conn'.1 = sock_id conn.1
    /\ conn'.2 = conn.2
    /\ isAlive conn'.1 = match l with LPong => VBool true | _ => isAlive conn.1 end.
Proof.
  destruct l as [| |info|info]; simpl.
  - eexists _, _. split; [reflexivity|]. by repeat constructor.
  - eexists _, _. split; [reflexivity|]. by repeat constructor.
  - eexists _, _. split.
    + apply then_ret_returns, message_listener_returns.
    + split; [apply dispatch_events_message | done].
  - eexists _, _. split.
    + apply then_ret_returns, close_listener_returns.
    + split; [apply dispatch_events_close | done].
Qed.

Lemma fire_all_returns fw clients ls : forall (conn : connection) args,
  exists tr conn',
    fire_all fw clients conn ls args = (tr, Returns conn')
    /\ Forall (fun e => dispatch_event e = true) tr
    /\ listeners conn'.1 = listeners conn.1
    /\ sock_id conn'.1 = sock_id conn.1
    /\ conn'.2 = conn.2
    /\ isAlive conn'.1 = if existsb is_pong ls then VBool true else isAlive conn.1.
Proof.
  induction ls as [|l ls IH]; intros conn args.
  - eexists _, _. split; [reflexivity|]. by repeat constructor.
  - simpl. destruct (fire_returns fw clients conn l args)
      as (tr1 & conn1 & -> & Htr1 & Hl1 & Hid1 & Hmm1 & Ha1).
    destruct (IH conn1 args) as (tr2 & conn2 & Hrun & Htr2 & Hl2 & Hid2 & Hmm2 & Ha2).
    rewrite bind_unfold, bind_returns, Hrun. simpl.
    eexists _, _. split; [reflexivity|].
    split; [by apply Forall_app|].
    split; [congruence|]. split; [congruence|]. split; [congruence|].
    rewrite Ha2, Ha1. destruct (existsb is_pong ls); [by rewrite orb_true_r|].
    by destruct l.
Qed.

Lemma add_listeners_nil socket : add_listeners socket [] = socket.
Proof. destruct socket. unfold add_listeners. simpl. by rewrite app_nil_r. Qed.

Lemma add_listeners_app socket l1 l2 :
  add_listeners (add_listeners socket l1) l2 = add_listeners socket (l1 ++ l2).
Proof. unfold add_listeners. simpl. by rewrite app_assoc. Qed.

Lemma get_property_ensure_entry name (methodMap : gmap string method_entry) :
  get_property (ensure_entry name methodMap) name
  = match get_property methodMap name with
    | Own entry => Own entry
    | Inherited => Inherited
    | Undefined => Own {| responseEvents := [] |}
    end.
Proof.
  unfold ensure_entry. destruct (get_property methodMap name) eqn:H; try done.
  unfold get_property. by rewrite lookup_insert_eq.
Qed.

(** One turn of the loop: what it leaves in the trace, and when it goes
    through. *)
Lemma process_descriptor_spec fw clients request socket
    (methodMap : gmap string method_entry) wsEventInfo :
  process_descriptor fw clients request (socket, methodMap) wsEventInfo
  = (EAwait AwGetController ::
       descriptor_events fw clients request socket
         (ensure_entry (propertyName wsEventInfo) methodMap) wsEventInfo,
     if step_fails methodMap wsEventInfo then Throws TypeError
     else Returns (add_listeners socket (listener_plan [wsEventInfo]),
                   table_step methodMap wsEventInfo)).
Proof.
  unfold process_descriptor, table_step, listener_plan, descriptor_events, step_fails.
  rewrite bind_awaiting_ret. cbn [fst snd].
  assert (forall kind, is_response kind = true ->
            (methodMap' ← push_response wsEventInfo
                            (ensure_entry (propertyName wsEventInfo) methodMap);
             ret (socket, methodMap'))
            = ([], if match get_property methodMap (propertyName wsEventInfo) with
                      | Inherited => true
                      | _ => false
                      end
                   then Throws TypeError
                   else Returns (add_listeners socket [],
                                 with_response wsEventInfo
                                   (ensure_entry (propertyName wsEventInfo) methodMap)))
         ) as Hpush.
  { intros _ _. unfold push_response, with_response.
    rewrite get_property_ensure_entry, add_listeners_nil.
    unfold ensure_entry, get_property.
    destruct (methodMap !! propertyName wsEventInfo) as [entry|] eqn:Hl.
    - by rewrite Hl.
    - destruct (object_prototype_member (propertyName wsEventInfo)); [done|].
      by rewrite lookup_insert_eq. }
  cbn [omap list_omap].
  destruct (eventType wsEventInfo); cbn [is_response andb];
    rewrite ?add_listeners_nil.
  - rewrite then_ret_returns by apply on_connection_dispatch_returns. done.
  - done.
  - done.
  - by rewrite (Hpush EMIT eq_refl), add_listeners_nil.
  - by rewrite (Hpush BROADCAST eq_refl), add_listeners_nil.
Qed.

(** C3. Whatever the handler and the middleware do, a dispatch of each
    kind (on-connection, message, close) returns normally; when its
    pipeline raises a failure, the failure is the last thing the dispatch
    logs; its trace holds nothing but logs, sends, acknowledgments,
    handler calls and awaits, so the socket is neither destroyed nor
    terminated; the loop over the descriptors goes on after an
    on-connection dispatch; and an event emitted on the socket leaves the
    registered listeners as they were, so the same listener serves the
    next event of that name. *)
Theorem handler_failures_contained fw clients socket request wsEventInfo
    (methodMap : gmap string method_entry) args reason :
  let connect := on_connection_dispatch fw clients socket request wsEventInfo methodMap in
  let message := message_listener fw clients socket wsEventInfo methodMap args in
  let close := close_listener fw clients socket wsEventInfo methodMap reason in
  (outcome_of connect = Returns tt
   /\ outcome_of message = Returns tt
   /\ outcome_of close = Returns tt)
  /\ (Forall (fun e => dispatch_event e = true) (trace_of connect)
      /\ Forall (fun e => dispatch_event e = true) (trace_of message)
      /\ Forall (fun e => dispatch_event e = true) (trace_of close))
  /\ (forall e, outcome_of (connection_pipeline fw socket request wsEventInfo) = Throws e ->
        exists tr, trace_of connect = tr ++ [ELog Error "" (Some e)])
  /\ (forall e, outcome_of (message_pipeline fw wsEventInfo args) = Throws e ->
        exists tr, trace_of message = tr ++ [ELog Error "" (Some e)])
  /\ (forall e, controller fw (propertyName wsEventInfo) [reason] = Throws e ->
        exists tr, trace_of close = tr ++ [ELog Error "" (Some e)])
  /\ (forall conn : connection,
        outcome_of (process_descriptor fw clients request conn wsEventInfo)
        = if step_fails conn.2 wsEventInfo then Throws TypeError
          else Returns (add_listeners conn.1 (listener_plan [wsEventInfo]),
                        table_step conn.2 wsEventInfo))
  /\ (forall (conn : connection) eventName, exists conn',
        outcome_of (socket_emit fw clients conn eventName args) = Returns conn'
        /\ listeners conn'.1 = listeners conn.1
        /\ listeners_for eventName conn'.1 = listeners_for eventName conn.1
        /\ Forall (fun e => dispatch_event e = true)
             (trace_of (socket_emit fw clients conn eventName args))).
Proof.
  intros connect message close.
  split; [|split; [|split; [|split; [|split; [|split]]]]].
  - split; [apply on_connection_dispatch_returns|].
    split; [apply message_listener_returns | apply close_listener_returns].
  - split; [apply dispatch_events_on_connection|].
    split; [apply dispatch_events_message | apply dispatch_events_close].
  - intros e He. subst connect. unfold on_connection_dispatch.
    rewrite (try_catch_log_failure _ _ e He). by eexists.
  - intros e He. subst message. unfold message_listener.
    rewrite (try_catch_log_failure _ _ e He). rewrite bind_unfold. simpl.
    by exists (ELog Debug "[ws]: got message" None ::
               trace_of (message_pipeline fw wsEventInfo args)).
  - intros e He. subst close. unfold close_listener.
    erewrite try_catch_log_failure; [by eexists|].
    rewrite awaiting_unfold. unfold invoke. rewrite bind_unfold. simpl.
    by rewrite He.
  - intros [s mm]. by rewrite process_descriptor_spec.
  - intros conn eventName. unfold socket_emit.
    destruct (fire_all_returns fw clients (listeners_for eventName conn.1) conn args)
      as (tr & conn' & -> & Htr & Hl & _).
    exists conn'. split; [done|]. split; [done|]. split; [|done].
    unfold listeners_for. by rewrite Hl.
Qed.

Lemma handler_failures_contained_witness :
  exists tr,
    trace_of (message_listener (sample_framework [] [] (fun _ => Returns true)) sample_clients
                (new_socket 1) (sample_info "failing" ON_MESSAGE) ∅ [VStr "hello"])
    = tr ++ [ELog Error "" (Some (Thrown (VStr "boom")))].
Proof.
  destruct (handler_failures_contained (sample_framework [] [] (fun _ => Returns true))
              sample_clients (new_socket 1) 100 (sample_info "failing" ON_MESSAGE)
              ∅ [VStr "hello"] VUndefined) as (_ & _ & _ & Hmessage & _).
  apply Hmessage. reflexivity.
Defined.

Lemma no_response_event_no_send tr :
  Forall (fun e => response_event e = false) tr -> sends_of tr = [].
Proof.
  induction 1 as [|e tr He _ IH]; [done|].
  destruct e; simpl in He; try discriminate He; exact IH.
Qed.

(** C6. A message whose last argument is a function: the result of the
    pipeline is handed to that function as it is, the response binder is
    not reached (no await in front of it, no send to any connection),
    whatever the response table holds, and the listener returns
    normally. *)
Theorem ack_bypasses_response_binder fw clients socket wsEventInfo
    (methodMap : gmap string method_entry) args :
  is_function (last_arg args) = true ->
  let run := message_listener fw clients socket wsEventInfo methodMap args in
  outcome_of run = Returns tt
  /\ Forall (fun e => response_event e = false) (trace_of run)
  /\ sends_of (trace_of run) = []
  /\ (forall result,
        outcome_of (message_pipeline fw wsEventInfo args) = Returns result ->
        exists f, last_arg args = VFun f
          /\ trace_of run = ELog Debug "[ws]: got message" None ::
               trace_of (message_pipeline fw wsEventInfo args) ++ [EAck f result]).
Proof.
  intros Hf run.
  assert (Forall (fun e => response_event e = false) (trace_of run)) as Hnone.
  { subst run. unfold message_listener. apply Forall_bind; [by apply Forall_emit_event|].
    intros _. apply Forall_try_catch.
    - apply Forall_bind; [by apply Forall_message_pipeline|].
      intros result. rewrite Hf.
      destruct (call_ack_function _ result Hf) as (f & _ & ->). by repeat constructor.
    - intros e. by apply Forall_emit_event. }
  split; [apply message_listener_returns|].
  split; [done|]. split; [by apply no_response_event_no_send|].
  intros result Hres. destruct (call_ack_function _ result Hf) as (f & Hlast & Hack).
  exists f. split; [done|]. subst run. unfold message_listener.
  rewrite Hf. destruct (message_pipeline fw wsEventInfo args) as [tr o].
  simpl in Hres. subst o. rewrite !bind_unfold. simpl. by rewrite Hack.
Qed.

Lemma ack_bypasses_response_binder_witness :
  exists f, last_arg [VStr "hello"; VFun 3] = VFun f
    /\ trace_of (message_listener (sample_framework [] [] (fun _ => Returns true))
                   sample_clients (new_socket 1) (sample_info "onMessage" ON_MESSAGE)
                   (singleton_table "onMessage"
                      [sample_info "onMessage" EMIT; sample_info "onMessage" BROADCAST])
                   [VStr "hello"; VFun 3])
       = ELog Debug "[ws]: got message" None ::
           trace_of (message_pipeline (sample_framework [] [] (fun _ => Returns true))
                       (sample_info "onMessage" ON_MESSAGE) [VStr "hello"; VFun 3])
           ++ [EAck f (VObj 11)].
Proof.
  destruct (ack_bypasses_response_binder (sample_framework [] [] (fun _ => Returns true))
              sample_clients (new_socket 1) (sample_info "onMessage" ON_MESSAGE)
              (singleton_table "onMessage"
                 [sample_info "onMessage" EMIT; sample_info "onMessage" BROADCAST])
              [VStr "hello"; VFun 3] eq_refl) as (_ & _ & _ & Hack).
  apply Hack. reflexivity.
Defined.

(** C7. An on-connection descriptor whose guard answers false: the last
    element of the chain raises MidwayInvokeForbiddenError without
    calling the handler; the dispatch returns normally, calls no handler
    and neither destroys nor terminates the socket, whatever middleware
    the descriptor carries; with no middleware of its own the dispatch
    logs exactly that failure; and the loop goes on with the socket as it
    was. *)
Theorem forbidden_on_connection fw clients socket request wsEventInfo
    (methodMap : gmap string method_entry) :
  eventType wsEventInfo = ON_CONNECTION ->
  runGuard fw (propertyName wsEventInfo) = Returns false ->
  let name := propertyName wsEventInfo in
  let run := on_connection_dispatch fw clients socket request wsEventInfo methodMap in
  guarded_handler fw socket request wsEventInfo
    = ([EAwait AwGuard], Throws (MidwayInvokeForbiddenError name))
  /\ outcome_of run = Returns tt
  /\ Forall (fun e => is_invoke e = false) (trace_of run)
  /\ Forall (fun e => dispatch_event e = true) (trace_of run)
  /\ (eventMiddleware wsEventInfo = [] ->
      run = ([EAwait AwCompose; EAwait AwPipeline; EAwait AwGuard;
              ELog Error "" (Some (MidwayInvokeForbiddenError name))], Returns tt))
  /\ (exists tr,
        process_descriptor fw clients request (socket, methodMap) wsEventInfo
        = (tr, Returns (socket, ensure_entry name methodMap))
        /\ Forall (fun e => dispatch_event e = true) tr).
Proof.
  intros Hkind Hguard name run.
  assert (guarded_handler fw socket request wsEventInfo
          = ([EAwait AwGuard], Throws (MidwayInvokeForbiddenError name))) as Hlast.
  { unfold guarded_handler. rewrite Hguard. reflexivity. }
  split; [done|]. split; [apply on_connection_dispatch_returns|].
  split; [|split; [apply dispatch_events_on_connection|split]].
  - subst run. unfold on_connection_dispatch. apply Forall_try_catch.
    + apply Forall_bind.
      * apply Forall_connection_pipeline; try done. by rewrite Hguard.
      * intros result. apply Forall_awaiting; [done|].
        by apply Forall_bindSocketResponse.
    + intros e. by apply Forall_emit_event.
  - intros Hmw. subst run. unfold on_connection_dispatch, connection_pipeline.
    rewrite Hmw. simpl. rewrite Hlast. reflexivity.
  - unfold process_descriptor. rewrite Hkind, bind_awaiting_ret.
    rewrite then_ret_returns by apply on_connection_dispatch_returns.
    eexists. split; [reflexivity|].
    constructor; [done | apply dispatch_events_on_connection].
Qed.

Lemma forbidden_on_connection_witness :
  on_connection_dispatch (sample_framework [] [] (fun _ => Returns false)) sample_clients
    (new_socket 1) 100 (sample_info "onConnect" ON_CONNECTION) ∅
  = ([EAwait AwCompose; EAwait AwPipeline; EAwait AwGuard;
      ELog Error "" (Some (MidwayInvokeForbiddenError "onConnect"))], Returns tt).
Proof.
  destruct (forbidden_on_connection (sample_framework [] [] (fun _ => Returns false))
              sample_clients (new_socket 1) 100 (sample_info "onConnect" ON_CONNECTION)
              ∅ eq_refl eq_refl) as (_ & _ & _ & _ & Hlog & _).
  apply Hlog. reflexivity.
Defined.

(** ** The heartbeat *)

Lemma heartbeat_sweep_alive socket :
  strict_eq_false (isAlive socket) = false ->
  heartbeat_sweep socket
  = ([EPing (sock_id socket)], Returns (set_isAlive socket (VBool false))).
Proof. intros H. unfold heartbeat_sweep. by rewrite H. Qed.

Lemma heartbeat_sweep_suspect socket :
  strict_eq_false (isAlive socket) = true ->
  heartbeat_sweep socket
  = ([ELog Debug "[ws]: socket terminate" None; ETerminate (sock_id socket)],
     Returns socket).
Proof. intros H. unfold heartbeat_sweep. by rewrite H. Qed.

(** A tick sweeps every client, each on its own. *)
Lemma heartbeat_tick_pointwise clients :
  heartbeat_tick clients
  = (concat (map (fun s => trace_of (heartbeat_sweep s)) clients),
     Returns (map (fun s => if strict_eq_false (isAlive s) then s
                            else set_isAlive s (VBool false)) clients)).
Proof.
  induction clients as [|s cs IH]; [done|].
  simpl. rewrite IH, !bind_unfold. unfold heartbeat_sweep.
  destruct (strict_eq_false (isAlive s)); simpl; by rewrite app_nil_r.
Qed.

Lemma two_missed_nil : ~ two_missed_intervals [].
Proof. intros ([|? ?] & ? & H); discriminate H. Qed.

Lemma two_missed_cons_tick history :
  two_missed_intervals (Tick :: history)
  <-> (exists rest, history = Tick :: rest) \/ two_missed_intervals history.
Proof.
  split.
  - intros ([|ev before] & after & H); simpl in H; injection H as H.
    + left. by eexists.
    + right. subst. by exists before, after.
  - intros [[rest ->] | (before & after & ->)].
    + by exists [], rest.
    + by exists (Tick :: before), after.
Qed.

Lemma two_missed_cons_pong history :
  two_missed_intervals (PongReceived :: history) <-> two_missed_intervals history.
Proof.
  split.
  - intros ([|ev before] & after & H); simpl in H; [discriminate H|].
    injection H as _ H. subst. by exists before, after.
  - intros (before & after & ->). by exists (PongReceived :: before), after.
Qed.

Lemma terminate_not_dispatch ws tr :
  Forall (fun e => dispatch_event e = true) tr -> ETerminate ws ∉ tr.
Proof.
  intros H Hin. rewrite Forall_forall in H. by apply H in Hin.
Qed.

Lemma pong_received fw clients (conn : connection) :
  monitored conn.1 = true ->
  exists tr conn',
    socket_emit fw clients conn "pong" [] = (tr, Returns conn')
    /\ Forall (fun e => dispatch_event e = true) tr
    /\ isAlive conn'.1 = VBool true
    /\ sock_id conn'.1 = sock_id conn.1
    /\ monitored conn'.1 = true.
Proof.
  intros Hmon. unfold socket_emit.
  destruct (fire_all_returns fw clients (listeners_for "pong" conn.1) conn [])
    as (tr & conn' & -> & Htr & Hl & Hid & _ & Ha).
  exists tr, conn'. split; [done|]. split; [done|].
  unfold monitored in *. rewrite Hmon in Ha. split; [done|]. split; [done|].
  unfold listeners_for in *. by rewrite Hl.
Qed.

Lemma heartbeat_run_spec fw clients history : forall (conn : connection) b,
  isAlive conn.1 = VBool b -> monitored conn.1 = true ->
  (exists conn', outcome_of (heartbeat_run fw clients conn history) = Returns conn')
  /\ (ETerminate (sock_id conn.1) ∈ trace_of (heartbeat_run fw clients conn history)
      <-> (b = false /\ exists rest, history = Tick :: rest)
          \/ two_missed_intervals history).
Proof.
  induction history as [|ev history IH]; intros conn b Halive Hmon.
  - split; [by eexists|]. simpl. split.
    + by intros ?%elem_of_nil.
    + intros [[_ [? ?]] | H]; [done | by apply two_missed_nil in H].
  - destruct ev; simpl; rewrite bind_unfold.
    + destruct b.
      * rewrite heartbeat_sweep_alive by (by rewrite Halive). simpl.
        destruct (IH (set_isAlive conn.1 (VBool false), conn.2) false eq_refl Hmon)
          as [[conn' Hret] Hiff].
        simpl in *. destruct (heartbeat_run _ _ _ history) as [tr o]. simpl in *.
        split; [by eexists|].
        rewrite two_missed_cons_tick. split.
        -- intros [?|Hin]%elem_of_cons; [done|]. right.
           apply Hiff in Hin as [[_ ?] | ?]; [by left | by right].
        -- intros [[? _] | H]; [done|]. right. apply Hiff.
           destruct H as [H | H]; [by left | by right].
      * rewrite heartbeat_sweep_suspect by (by rewrite Halive). simpl.
        destruct (IH (conn.1, conn.2) false Halive Hmon) as [[conn' Hret] _].
        simpl in *. destruct (heartbeat_run _ _ _ history) as [tr o]. simpl in *.
        split; [by eexists|]. split.
        -- intros _. left. split; [done | by eexists].
        -- intros _. right. left.
    + destruct (pong_received fw clients conn Hmon)
        as (tr & conn1 & -> & Htr & Ha1 & Hid1 & Hmon1).
      destruct (IH conn1 true Ha1 Hmon1) as [[conn' Hret] Hiff].
      rewrite bind_returns. simpl. split; [by eexists|].
      rewrite two_missed_cons_pong, elem_of_app, <- Hid1. split.
      * intros [Hin | Hin]; [by apply terminate_not_dispatch in Hin|].
        apply Hiff in Hin as [[? _] | H]; [done | by right].
      * intros [[_ [? ?]] | H]; [done|]. right. apply Hiff. by right.
Qed.

(** C2. A connection that carries the pong listener and whose flag is
    true: over any sequence of ticks and pongs, [terminate] is called on
    it exactly when two ticks follow each other with no pong in between.
    In particular, a pong before each tick means it is never terminated;
    with no pong at all, the first tick clears the flag and pings, and the
    second tick terminates without pinging. *)
Theorem heartbeat_two_missed_intervals fw clients (conn : connection) history :
  isAlive conn.1 = VBool true -> monitored conn.1 = true ->
  let id := sock_id conn.1 in
  (exists conn', outcome_of (heartbeat_run fw clients conn history) = Returns conn')
  /\ (ETerminate id ∈ trace_of (heartbeat_run fw clients conn history)
      <-> two_missed_intervals history)
  /\ (forall n, ETerminate id ∉
        trace_of (heartbeat_run fw clients conn (concat (replicate n [PongReceived; Tick]))))
  /\ heartbeat_run fw clients conn [Tick]
     = ([EPing id], Returns (set_isAlive conn.1 (VBool false), conn.2))
  /\ heartbeat_run fw clients conn [Tick; Tick]
     = ([EPing id; ELog Debug "[ws]: socket terminate" None; ETerminate id],
        Returns (set_isAlive conn.1 (VBool false), conn.2)).
Proof.
  intros Halive Hmon id.
  assert (forall h, ETerminate id ∈ trace_of (heartbeat_run fw clients conn h)
                    <-> two_missed_intervals h) as Hiff.
  { intros h. destruct (heartbeat_run_spec fw clients h conn true Halive Hmon) as [_ H].
    subst id. split; [|intros ?; apply H; by right].
    by intros [[? _] | ?]%H. }
  split; [apply (heartbeat_run_spec fw clients history conn true Halive Hmon)|].
  split; [apply Hiff|]. split; [|split].
  - intros n. rewrite Hiff. induction n as [|n IH]; simpl.
    + apply two_missed_nil.
    + rewrite two_missed_cons_pong, two_missed_cons_tick. intros [[rest H] | H]; [|done].
      destruct n; discriminate H.
  - simpl. rewrite bind_unfold, heartbeat_sweep_alive by (by rewrite Halive). done.
  - simpl. rewrite bind_unfold, heartbeat_sweep_alive by (by rewrite Halive). simpl.
    done.
Qed.

Lemma heartbeat_two_missed_intervals_witness :
  ETerminate 1 ∈ trace_of (heartbeat_run late_listener_framework [] (accepted_socket 1, ∅)
                             [Tick; PongReceived; Tick; Tick])
  <-> two_missed_intervals [Tick; PongReceived; Tick; Tick].
Proof.
  apply (proj1 (proj2 (heartbeat_two_missed_intervals late_listener_framework []
                         (accepted_socket 1, ∅) [Tick; PongReceived; Tick; Tick]
                         eq_refl eq_refl))).
Defined.

(** ** The loop over the descriptors *)

Lemma registrations_of_app tr1 tr2 :
  registrations_of (tr1 ++ tr2) = registrations_of tr1 ++ registrations_of tr2.
Proof. apply omap_app. Qed.

Lemma registrations_of_dispatch tr :
  Forall (fun e => dispatch_event e = true) tr -> registrations_of tr = [].
Proof.
  induction 1 as [|e tr He _ IH]; [done|].
  destruct e; simpl in He; try discriminate He; exact IH.
Qed.

Lemma listener_plan_cons i infos :
  listener_plan (i :: infos) = listener_plan [i] ++ listener_plan infos.
Proof. apply (omap_app _ [i] infos). Qed.

Lemma listener_plan_app l1 l2 :
  listener_plan (l1 ++ l2) = listener_plan l1 ++ listener_plan l2.
Proof. apply omap_app. Qed.

Lemma build_table_snoc pre i (methodMap : gmap string method_entry) :
  build_table (pre ++ [i]) methodMap = table_step (build_table pre methodMap) i.
Proof. unfold build_table. by rewrite foldl_app. Qed.

Lemma registrations_of_descriptor_events fw clients request socket
    (methodMap : gmap string method_entry) i :
  registrations_of (descriptor_events fw clients request socket methodMap i)
  = listener_plan [i].
Proof.
  unfold descriptor_events, listener_plan. cbn [omap list_omap].
  destruct (eventType i); try done.
  apply registrations_of_dispatch, dispatch_events_on_connection.
Qed.

(** The loop, one descriptor further. *)
Lemma process_descriptors_cons fw clients request socket
    (methodMap : gmap string method_entry) i infos :
  process_descriptors fw clients request (socket, methodMap) (i :: infos)
  = (EAwait AwGetController ::
       descriptor_events fw clients request socket
         (ensure_entry (propertyName i) methodMap) i
       ++ (if step_fails methodMap i then []
           else trace_of (process_descriptors fw clients request
                            (add_listeners socket (listener_plan [i]),
                             table_step methodMap i) infos)),
     if step_fails methodMap i then Throws TypeError
     else outcome_of (process_descriptors fw clients request
                        (add_listeners socket (listener_plan [i]),
                         table_step methodMap i) infos)).
Proof.
  cbn [process_descriptors]. rewrite bind_unfold, process_descriptor_spec.
  destruct (step_fails methodMap i).
  - cbn. by rewrite app_nil_r.
  - rewrite bind_returns. by rewrite app_comm_cons.
Qed.

Lemma process_descriptors_returns fw clients request infos :
  forall socket (methodMap : gmap string method_entry) tr conn,
  process_descriptors fw clients request (socket, methodMap) infos = (tr, Returns conn) ->
  conn = (add_listeners socket (listener_plan infos), build_table infos methodMap)
  /\ registrations_of tr = listener_plan infos.
Proof.
  induction infos as [|i infos IH]; intros socket mm tr conn.
  - intros [= <- <-]. by rewrite add_listeners_nil.
  - rewrite process_descriptors_cons. destruct (step_fails mm i); [done|].
    destruct (process_descriptors fw clients request _ infos) as [tr' o] eqn:Hrest.
    cbn [trace_of outcome_of fst snd]. intros [= <- ->].
    destruct (IH _ _ _ _ Hrest) as [-> Hreg].
    rewrite (listener_plan_cons i infos), add_listeners_app. split; [done|].
    change (registrations_of (EAwait AwGetController :: ?l)) with (registrations_of l).
    by rewrite registrations_of_app, registrations_of_descriptor_events, Hreg.
Qed.

Lemma process_descriptors_app fw clients request l1 l2 :
  forall (conn : connection) tr1 conn1,
  process_descriptors fw clients request conn l1 = (tr1, Returns conn1) ->
  process_descriptors fw clients request conn (l1 ++ l2)
  = (tr1 ++ trace_of (process_descriptors fw clients request conn1 l2),
     outcome_of (process_descriptors fw clients request conn1 l2)).
Proof.
  induction l1 as [|i l1 IH]; intros [socket mm] tr1 conn1.
  - simpl. intros [= <- <-]. simpl. by destruct (process_descriptors _ _ _ _ l2).
  - rewrite <- app_comm_cons, !process_descriptors_cons.
    destruct (step_fails mm i); [done|].
    destruct (process_descriptors fw clients request _ l1) as [tr o] eqn:Hrun.
    cbn [trace_of outcome_of fst snd]. intros [= <- ->]. rewrite (IH _ _ _ Hrun).
    unfold trace_of, outcome_of. cbn [fst snd].
    by rewrite <- app_comm_cons, <- app_assoc.
Qed.

(** ** Inherited names and the loop *)

Lemma no_inherited_key_empty : no_inherited_key ∅.
Proof. intros name _. apply lookup_empty. Qed.

Lemma ensure_entry_lookup_ne name n (methodMap : gmap string method_entry) :
  n ≠ name -> ensure_entry n methodMap !! name = methodMap !! name.
Proof.
  intros Hne. unfold ensure_entry.
  destruct (get_property methodMap n); try done. by apply lookup_insert_ne.
Qed.

Lemma with_response_lookup_ne i name (methodMap : gmap string method_entry) :
  propertyName i ≠ name -> with_response i methodMap !! name = methodMap !! name.
Proof.
  intros Hne. unfold with_response.
  destruct (methodMap !! propertyName i); [by rewrite lookup_insert_ne | done].
Qed.

Lemma table_step_lookup_ne i name (methodMap : gmap string method_entry) :
  propertyName i ≠ name -> table_step methodMap i !! name = methodMap !! name.
Proof.
  intros Hne. unfold table_step. destruct (is_response (eventType i)).
  - by rewrite with_response_lookup_ne, ensure_entry_lookup_ne.
  - by rewrite ensure_entry_lookup_ne.
Qed.

Lemma no_inherited_key_step (methodMap : gmap string method_entry) i :
  no_inherited_key methodMap -> no_inherited_key (table_step methodMap i).
Proof.
  intros Hinv name Hmember. specialize (Hinv name Hmember) as Hnone.
  destruct (decide (propertyName i = name)) as [<-|Hne].
  - unfold table_step, with_response, ensure_entry, get_property.
    rewrite Hnone, Hmember. destruct (is_response (eventType i)); by rewrite ?Hnone.
  - by rewrite table_step_lookup_ne.
Qed.

Lemma no_inherited_key_build infos : forall (methodMap : gmap string method_entry),
  no_inherited_key methodMap -> no_inherited_key (build_table infos methodMap).
Proof.
  induction infos as [|i infos IH]; intros mm Hinv; [done|].
  apply IH. by apply no_inherited_key_step.
Qed.

Lemma step_fails_unsafe (methodMap : gmap string method_entry) i :
  no_inherited_key methodMap -> step_fails methodMap i = unsafe i.
Proof.
  intros Hinv. unfold step_fails, unsafe, get_property. f_equal.
  destruct (object_prototype_member (propertyName i)) eqn:Hmember.
  - by rewrite (Hinv _ Hmember).
  - by destruct (methodMap !! propertyName i).
Qed.

(** The loop run from the empty table: its trace descriptor by
    descriptor, and how it ends. *)
Lemma process_descriptors_closed_form fw clients request accepted infos : forall pre,
  process_descriptors fw clients request
    (add_listeners accepted (listener_plan pre), build_table pre ∅) infos
  = (loop_trace fw clients request accepted pre infos,
     if loop_safe infos
     then Returns (add_listeners accepted (listener_plan (pre ++ infos)),
                   build_table (pre ++ infos) ∅)
     else Throws TypeError).
Proof.
  induction infos as [|i infos IH]; intros pre.
  - cbn. by rewrite app_nil_r.
  - rewrite process_descriptors_cons.
    rewrite (step_fails_unsafe (build_table pre ∅) i)
      by apply no_inherited_key_build, no_inherited_key_empty.
    cbn [loop_trace loop_safe forallb]. destruct (unsafe i); [done|].
    rewrite add_listeners_app, <- listener_plan_app, <- build_table_snoc, IH.
    cbn [trace_of outcome_of fst snd negb andb].
    by rewrite <- (app_assoc pre [i] infos).
Qed.

Lemma process_descriptors_from_empty fw clients request accepted infos :
  process_descriptors fw clients request (accepted, ∅) infos
  = (loop_trace fw clients request accepted [] infos,
     if loop_safe infos
     then Returns (add_listeners accepted (listener_plan infos), build_table infos ∅)
     else Throws TypeError).
Proof.
  pose proof (process_descriptors_closed_form fw clients request accepted infos [])
    as Hloop.
  rewrite add_listeners_nil in Hloop.
  by change (build_table [] ∅) with (∅ : gmap string method_entry) in Hloop.
Qed.

Lemma loop_trace_app fw clients request accepted l1 l2 : forall pre,
  loop_safe l1 = true ->
  loop_trace fw clients request accepted pre (l1 ++ l2)
  = loop_trace fw clients request accepted pre l1
    ++ loop_trace fw clients request accepted (pre ++ l1) l2.
Proof.
  induction l1 as [|i l1 IH]; intros pre Hsafe.
  - cbn. by rewrite app_nil_r.
  - cbn [loop_safe forallb] in Hsafe. apply andb_true_iff in Hsafe as [Hi Hsafe].
    apply negb_true_iff in Hi. rewrite <- app_comm_cons. cbn [loop_trace]. rewrite Hi.
    rewrite (IH _ Hsafe), <- (app_assoc pre [i] l1). cbn [app].
    by rewrite <- app_assoc.
Qed.

Lemma loop_safe_app l1 l2 :
  loop_safe (l1 ++ l2) = loop_safe l1 && loop_safe l2.
Proof. apply forallb_app. Qed.

(** ** The response table during the loop *)

Lemma ensure_entry_lookup name (methodMap : gmap string method_entry) :
  object_prototype_member name = false ->
  ensure_entry name methodMap !! name
  = Some {| responseEvents := table_events methodMap name |}.
Proof.
  intros Hplain. unfold ensure_entry, table_events, get_property. rewrite Hplain.
  destruct (methodMap !! name) as [[evs]|] eqn:H; [done|]. apply lookup_insert_eq.
Qed.

Lemma table_events_step (methodMap : gmap string method_entry) i name :
  object_prototype_member name = false ->
  table_events (table_step methodMap i) name
  = table_events methodMap name ++ response_events_for name [i].
Proof.
  intros Hplain. unfold response_events_for. rewrite filter_cons, filter_nil.
  destruct (decide (propertyName i = name)) as [<-|Hne].
  - unfold table_step, table_events at 1.
    destruct (is_response (eventType i)) eqn:Hresp.
    + rewrite decide_True by done. unfold with_response.
      rewrite ensure_entry_lookup, lookup_insert_eq by done. done.
    + rewrite decide_False by (intros [? _]; congruence).
      rewrite ensure_entry_lookup by done. simpl. by rewrite app_nil_r.
  - rewrite decide_False by (by intros [_ ?]). rewrite app_nil_r.
    unfold table_events. by rewrite table_step_lookup_ne.
Qed.

Lemma table_events_build infos : forall (methodMap : gmap string method_entry) name,
  object_prototype_member name = false ->
  table_events (build_table infos methodMap) name
  = table_events methodMap name ++ response_events_for name infos.
Proof.
  induction infos as [|i infos IH]; intros mm name Hplain.
  - unfold response_events_for. rewrite filter_nil. simpl. by rewrite app_nil_r.
  - change (build_table (i :: infos) mm) with (build_table infos (table_step mm i)).
    rewrite IH, table_events_step, <- app_assoc by done. f_equal.
    unfold response_events_for. by rewrite <- filter_app.
Qed.

Lemma bindSocketResponse_lookup clients result socket name
    (mm1 mm2 : gmap string method_entry) :
  mm1 !! name = mm2 !! name ->
  bindSocketResponse clients result socket name mm1
  = bindSocketResponse clients result socket name mm2.
Proof. intros H. unfold bindSocketResponse, get_property. by rewrite H. Qed.

Lemma sends_of_app tr1 tr2 : sends_of (tr1 ++ tr2) = sends_of tr1 ++ sends_of tr2.
Proof. apply omap_app. Qed.

(** C9. Where an on-connection descriptor stands in the list decides
    which response policy its result gets. For a method not named like a
    member of [Object.prototype], reached by the loop: when the loop comes
    to the descriptor, the table entry of its method holds the response
    descriptors of that method declared before it, in order, and nothing
    of what is declared after it; the dispatch hands the result of the
    pipeline to the binder with that table, so that a truthy result is
    sent as the earlier descriptors say, and, with none of them before
    it, to the originating connection only. *)
Theorem on_connection_response_depends_on_order fw clients request socket pre ci post :
  eventType ci = ON_CONNECTION ->
  loop_safe pre = true ->
  object_prototype_member (propertyName ci) = false ->
  let name := propertyName ci in
  let socket1 := add_listeners socket (listener_plan pre) in
  let table := ensure_entry name (build_table pre ∅) in
  let earlier := response_events_for name pre in
  let pipeline := connection_pipeline fw socket1 request ci in
  let dispatch := on_connection_dispatch fw clients socket1 request ci table in
  trace_of (process_descriptors fw clients request (socket, ∅) (pre ++ ci :: post))
    = trace_of (process_descriptors fw clients request (socket, ∅) pre)
      ++ EAwait AwGetController
      :: trace_of dispatch
      ++ trace_of (process_descriptors fw clients request (socket1, table) post)
  /\ table !! name = Some {| responseEvents := earlier |}
  /\ (forall result,
        outcome_of pipeline = Returns result ->
        dispatch
        = (trace_of pipeline ++ EAwait AwBindResponse ::
             trace_of (bindSocketResponse clients result socket1 name
                         (singleton_table name earlier)),
           Returns tt))
  /\ (forall result,
        outcome_of pipeline = Returns result -> truthy result = true ->
        sends_of (trace_of dispatch)
        = sends_of (concat (map (policy_sends clients socket (formatResult result)) earlier))
          ++ (if (length earlier =? 0)%nat
              then [(sock_id socket, formatResult result)]
              else [])).
Proof.
  intros Hkind Hsafe Hplain name socket1 table earlier pipeline dispatch.
  subst name.
  assert (table !! propertyName ci = Some {| responseEvents := earlier |}) as Hlookup.
  { subst table earlier. rewrite ensure_entry_lookup, table_events_build by done. done. }
  assert (forall result,
            bindSocketResponse clients result socket1 (propertyName ci) table
            = bindSocketResponse clients result socket1 (propertyName ci)
                (singleton_table (propertyName ci) earlier))
    as Hbinder.
  { intros result. apply bindSocketResponse_lookup.
    rewrite Hlookup. unfold singleton_table. by rewrite lookup_singleton_eq. }
  assert (forall result, truthy result = true ->
            bindSocketResponse clients result socket1 (propertyName ci) table
            = (concat (map (policy_sends clients socket (formatResult result)) earlier)
                 ++ (if (length earlier =? 0)%nat
                     then [ESend (sock_id socket) (formatResult result)]
                     else []),
               Returns tt)) as Hsends.
  { intros result Ht.
    apply (bindSocketResponse_entry clients result socket1 (propertyName ci) table
             earlier Ht Hlookup). }
  assert (forall result,
            outcome_of (bindSocketResponse clients result socket1 (propertyName ci) table)
            = Returns tt) as Hreturns.
  { intros result. destruct (truthy result) eqn:Ht.
    - by rewrite (Hsends result Ht).
    - unfold bindSocketResponse. by rewrite Ht. }
  assert (forall result,
            outcome_of pipeline = Returns result ->
            dispatch
            = (trace_of pipeline ++ EAwait AwBindResponse ::
                 trace_of (bindSocketResponse clients result socket1 (propertyName ci) table),
               Returns tt)) as Hdispatch.
  { intros result Hres. subst dispatch. unfold on_connection_dispatch. fold pipeline.
    destruct pipeline as [tr o]. cbn in Hres. subst o.
    rewrite bind_unfold, bind_returns, awaiting_unfold.
    specialize (Hreturns result).
    destruct (bindSocketResponse clients result socket1 (propertyName ci) table)
      as [tr' o]. cbn in Hreturns. subst o. reflexivity. }
  split; [|split; [done|split]].
  - assert (process_descriptors fw clients request (socket, ∅) pre
            = (trace_of (process_descriptors fw clients request (socket, ∅) pre),
               Returns (socket1, build_table pre ∅))) as Hpre.
    { pose proof (process_descriptors_closed_form fw clients request socket pre []) as H.
      rewrite add_listeners_nil in H. change (build_table [] ∅) with
        (∅ : gmap string method_entry) in H.
      rewrite H, Hsafe. done. }
    rewrite (process_descriptors_app _ _ _ _ _ _ _ _ Hpre).
    cbn [trace_of fst]. rewrite process_descriptors_cons.
    assert (step_fails (build_table pre ∅) ci = false) as ->
      by (unfold step_fails; by rewrite Hkind).
    assert (listener_plan [ci] = []) as ->
      by (unfold listener_plan; simpl; by rewrite Hkind).
    assert (table_step (build_table pre ∅) ci = table) as ->
      by (unfold table_step; by rewrite Hkind).
    rewrite add_listeners_nil. unfold descriptor_events. rewrite Hkind. done.
  - intros result Hres. rewrite <- Hbinder. by apply Hdispatch.
  - intros result Hres Ht. rewrite (Hdispatch result Hres).
    cbn [trace_of fst]. rewrite sends_of_app.
    assert (sends_of (trace_of pipeline) = []) as ->.
    { apply no_response_event_no_send. subst pipeline.
      by apply Forall_connection_pipeline. }
    change (sends_of (EAwait AwBindResponse :: ?l)) with (sends_of l).
    rewrite (Hsends result Ht). cbn [trace_of fst app].
    rewrite sends_of_app. f_equal.
    by destruct (length earlier =? 0)%nat.
Qed.

Lemma on_connection_response_depends_on_order_witness :
  sends_of (trace_of (on_connection_dispatch
    (sample_framework [] [] (fun _ => Returns true)) sample_clients
    (add_listeners (new_socket 1) (listener_plan [sample_info "onConnect" BROADCAST]))
    100 (sample_info "onConnect" ON_CONNECTION)
    (ensure_entry "onConnect" (build_table [sample_info "onConnect" BROADCAST] ∅))))
  = [(1, JSON_stringify (VObj 10)); (3, JSON_stringify (VObj 10))].
Proof.
  destruct (on_connection_response_depends_on_order
              (sample_framework [] [] (fun _ => Returns true)) sample_clients 100
              (new_socket 1) [sample_info "onConnect" BROADCAST]
              (sample_info "onConnect" ON_CONNECTION)
              [sample_info "onConnect" EMIT] eq_refl eq_refl eq_refl)
    as (_ & _ & _ & Hsends).
  apply (Hsends (VObj 10) eq_refl eq_refl).
Defined.

(** The broadcast declared after the on-connection descriptor is not
    applied to the result of the on-connection handler; declared before
    it, it is. *)
Example broadcast_declared_after_on_connection :
  sends_of (trace_of (process_descriptors
    (sample_framework [] [] (fun _ => Returns true)) sample_clients 100 (new_socket 1, ∅)
    [sample_info "onConnect" ON_CONNECTION; sample_info "onConnect" BROADCAST]))
  = [(1, JSON_stringify (VObj 10))]
  /\ sends_of (trace_of (process_descriptors
    (sample_framework [] [] (fun _ => Returns true)) sample_clients 100 (new_socket 1, ∅)
    [sample_info "onConnect" BROADCAST; sample_info "onConnect" ON_CONNECTION]))
  = [(1, JSON_stringify (VObj 10)); (3, JSON_stringify (VObj 10))].
Proof. split; reflexivity. Qed.

(** ** Listener registration *)

Lemma silent_middleware (ms : list mw) :
  trace_of (compose (map run_mw ms) no_next) = [].
Proof.
  assert (Forall (fun _ => False) (trace_of (compose (map run_mw ms) no_next))) as H
    by (apply Forall_compose_mw_plain; constructor).
  destruct (trace_of _) as [|e tr]; [done|]. by apply Forall_cons in H as [[] _].
Qed.

Lemma accept_spec socket :
  accept socket
  = ([ERegister (sock_id socket) "error" LError; ERegister (sock_id socket) "pong" LPong],
     Returns (add_listeners (set_isAlive socket (VBool true))
                [("error", LError); ("pong", LPong)])).
Proof.
  unfold accept, socket_on, add_listeners. simpl. by rewrite <- app_assoc.
Qed.

Lemma on_connection_unfold fw clients socket request :
  let connectFn := compose (map run_mw (connectionMiddlewareManager fw ++
                                        controllerConnectionMiddleware fw)) no_next in
  let accepted := add_listeners (set_isAlive socket (VBool true))
                    [("error", LError); ("pong", LPong)] in
  let loop := process_descriptors fw clients request (accepted, ∅) (wsEventInfos fw) in
  on_connection fw clients socket request
  = (ERegister (sock_id socket) "error" LError :: ERegister (sock_id socket) "pong" LPong ::
     EAwait AwCompose :: EAwait AwConnectionMiddleware ::
     match outcome_of connectFn with
     | Returns _ => trace_of loop
     | Throws _ => []
     end,
     match outcome_of connectFn with
     | Returns _ => outcome_of loop
     | Throws e => Throws e
     end).
Proof.
  intros connectFn accepted loop. unfold on_connection.
  rewrite accept_spec, bind_unfold, bind_returns, bind_awaiting_ret.
  rewrite awaiting_unfold, bind_unfold.
  pose proof (silent_middleware (connectionMiddlewareManager fw ++
                                 controllerConnectionMiddleware fw)) as Hsilent.
  fold connectFn in Hsilent. fold connectFn. fold accepted. fold loop.
  destruct connectFn as [tr [v|e]]; simpl in Hsilent; subst tr; cbn; [|done].
  by destruct loop.
Qed.

Lemma listener_plan_unsafe i : unsafe i = true -> listener_plan [i] = [].
Proof.
  unfold unsafe, listener_plan. cbn [omap list_omap].
  by destruct (eventType i).
Qed.

Lemma processed_safe infos : loop_safe infos = true -> processed infos = infos.
Proof.
  induction infos as [|i infos IH]; [done|].
  cbn [loop_safe forallb processed]. intros [Hi Hsafe]%andb_true_iff.
  apply negb_true_iff in Hi. rewrite Hi. f_equal. by apply IH.
Qed.

Lemma registrations_of_loop_trace fw clients request accepted infos : forall pre,
  registrations_of (loop_trace fw clients request accepted pre infos)
  = listener_plan (processed infos).
Proof.
  induction infos as [|i infos IH]; intros pre; [done|].
  cbn [loop_trace processed].
  change (registrations_of (EAwait AwGetController :: ?l)) with (registrations_of l).
  rewrite registrations_of_app, registrations_of_descriptor_events.
  destruct (unsafe i) eqn:Hi.
  - rewrite (listener_plan_unsafe i Hi). done.
  - by rewrite IH, (listener_plan_cons i (processed infos)).
Qed.

(** C8, as the code has it. The handler first registers the 'error' and
    'pong' listeners, then awaits the composition and the run of the
    connection middleware. If the connection middleware fails nothing
    more happens and the failure leaves the handler. Otherwise the rest
    of the trace is that of the loop and nothing else, and at every
    descriptor [i] whose predecessors [pre] are all safe it reads: the
    loop over [pre], which registers the listeners planned by [pre] in
    declaration order; then the await of the controller lookup; then the
    events of [i] itself, on the socket with the listeners of [pre] and
    the table built from [pre] (a whole on-connection dispatch, or the
    one registration of a message or close listener); then, unless [i]
    is a response descriptor on a method named like a member of
    [Object.prototype], the loop over the descriptors after [i]. The
    listeners registered in all are those planned by the descriptors up
    to the first such unsafe descriptor, and the handler returns the
    socket with all planned listeners exactly when no descriptor is
    unsafe; otherwise it fails with a TypeError. *)
Theorem listeners_registered_in_declaration_order fw clients socket request :
  let id := sock_id socket in
  let infos := wsEventInfos fw in
  let connectFn := compose (map run_mw (connectionMiddlewareManager fw ++
                                        controllerConnectionMiddleware fw)) no_next in
  let accepted := add_listeners (set_isAlive socket (VBool true))
                    [("error", LError); ("pong", LPong)] in
  let run := on_connection fw clients socket request in
  exists rest,
    trace_of run = ERegister id "error" LError :: ERegister id "pong" LPong ::
                   EAwait AwCompose :: EAwait AwConnectionMiddleware :: rest
    /\ match outcome_of connectFn with
       | Returns _ =>
           rest = loop_trace fw clients request accepted [] infos
           /\ (forall pre i post,
              infos = pre ++ i :: post ->
              loop_safe pre = true ->
              rest = loop_trace fw clients request accepted [] pre
                     ++ EAwait AwGetController ::
                        descriptor_events fw clients request
                          (add_listeners accepted (listener_plan pre))
                          (ensure_entry (propertyName i) (build_table pre ∅)) i
                     ++ (if unsafe i then []
                         else loop_trace fw clients request accepted (pre ++ [i]) post)
              /\ registrations_of (loop_trace fw clients request accepted [] pre)
                 = listener_plan pre)
           /\ registrations_of rest = listener_plan (processed infos)
           /\ outcome_of run
              = (if loop_safe infos
                 then Returns (add_listeners accepted (listener_plan infos),
                               build_table infos ∅)
                 else Throws TypeError)
       | Throws e => rest = [] /\ outcome_of run = Throws e
       end.
Proof.
  intros id infos connectFn accepted run. subst run.
  rewrite on_connection_unfold. fold connectFn. fold accepted. fold infos.
  destruct (outcome_of connectFn) as [v|e]; [|exists []; by cbn].
  pose proof (process_descriptors_closed_form fw clients request accepted infos [])
    as Hloop.
  rewrite add_listeners_nil in Hloop.
  change (build_table [] ∅) with (∅ : gmap string method_entry) in Hloop.
  assert (accepted = add_listeners accepted []) as Haccepted
    by (by rewrite add_listeners_nil).
  exists (loop_trace fw clients request accepted [] infos).
  rewrite Hloop. cbn [trace_of outcome_of fst snd app].
  split; [done|]. split; [done|].
  split; [|split; [apply registrations_of_loop_trace | done]].
  intros pre i post -> Hsafe. split.
  - rewrite (loop_trace_app _ _ _ _ pre (i :: post) [] Hsafe). done.
  - by rewrite registrations_of_loop_trace, processed_safe.
Qed.

Lemma listeners_registered_in_declaration_order_witness :
  exists rest,
    trace_of (on_connection full_framework sample_clients (new_socket 1) 100)
    = ERegister 1 "error" LError :: ERegister 1 "pong" LPong ::
      EAwait AwCompose :: EAwait AwConnectionMiddleware :: rest
    /\ rest
       = [EAwait AwGetController;
          EAwait AwGetController] ++
         trace_of (on_connection_dispatch full_framework sample_clients
                     (accepted_socket 1) 100 (sample_info "onConnect" ON_CONNECTION)
                     (singleton_table "onConnect" [sample_info "onConnect" EMIT])) ++
         [EAwait AwGetController;
          EAwait AwGetController;
          ERegister 1 "message" (LMessage (sample_info "onMessage" ON_MESSAGE));
          EAwait AwGetController;
          EAwait AwGetController;
          ERegister 1 "close" (LClose (sample_info "onClose" ON_DISCONNECTION))]
    /\ registrations_of rest
       = [("message", LMessage (sample_info "onMessage" ON_MESSAGE));
          ("close", LClose (sample_info "onClose" ON_DISCONNECTION))].
Proof.
  destruct (listeners_registered_in_declaration_order
              full_framework sample_clients (new_socket 1) 100)
    as (rest & Htrace & _ & Hsplit & Hregs & _).
  exists rest. split; [exact Htrace|]. split; [|exact Hregs].
  destruct (Hsplit [sample_info "onConnect" EMIT]
              (sample_info "onConnect" ON_CONNECTION)
              [sample_info "onConnect" BROADCAST;
               sample_info "onMessage" ON_MESSAGE;
               sample_info "onMessage" EMIT;
               sample_info "onClose" ON_DISCONNECTION] eq_refl eq_refl) as [-> _].
  reflexivity.
Defined.

(** C8, as the claim has it, fails: with a single message descriptor the
    listener is registered only after the handler has awaited, and a
    message that arrives while the handler is at its first await finds no
    listener. *)
Lemma listeners_registered_before_yield_counterexample :
  registered_before_yield
    (trace_of (on_connection late_listener_framework [] (new_socket 1) 100)) = false
  /\ outcome_of (accept (new_socket 1)) = Returns (accepted_socket 1)
  /\ socket_emit late_listener_framework [] (accepted_socket 1, ∅) "message" [VStr "hello"]
     = ([], Returns (accepted_socket 1, ∅)).
Proof. repeat split. Qed.

(** A response descriptor on a method named [toString] stops the loop:
    the on-connection handler declared before it is called, the message
    listener declared after it is never registered, and the failure
    leaves the 'connection' listener. *)
Example loop_stops_at_inherited_name :
  on_connection inherited_name_framework [] (new_socket 1) 100
  = ([ERegister 1 "error" LError; ERegister 1 "pong" LPong;
      EAwait AwCompose; EAwait AwConnectionMiddleware;
      EAwait AwGetController] ++
     trace_of (on_connection_dispatch inherited_name_framework []
                 (accepted_socket 1) 100 (sample_info "onConnect" ON_CONNECTION)
                 (singleton_table "onConnect" [])) ++
     [EAwait AwGetController],
     Throws TypeError).
Proof. reflexivity. Qed.

(** A connection set up by the 'connection' listener is one the heartbeat
    statement applies to. *)
Lemma on_connection_monitored fw clients socket request (conn : connection) :
  outcome_of (on_connection fw clients socket request) = Returns conn ->
  isAlive conn.1 = VBool true /\ monitored conn.1 = true.
Proof.
  rewrite on_connection_unfold.
  destruct (outcome_of (compose _ _)); [|done].
  destruct (process_descriptors fw clients request _ (wsEventInfos fw))
    as [tr o] eqn:Hloop.
  cbn [outcome_of snd]. intros ->.
  apply process_descriptors_returns in Hloop as [-> _]. split; [done|].
  unfold monitored, listeners_for. simpl.
  rewrite !omap_app, !existsb_app. simpl. by rewrite orb_true_r.
Qed.

(** * Further properties of the code *)

(** ** The upgrade gate, both ways *)

(** X1. The 'upgrade' listener never fails, and what it does to the
    transport is decided by the predicate alone: on a rejection it
    destroys the raw socket and does nothing else; otherwise (no
    predicate, or a truthy answer) it calls [handleUpgrade] and emits
    'connection' if the handshake completes, and does not destroy the
    socket. *)
Theorem upgrade_listener_decides fw request rawSocket :
  let run := upgrade_listener fw request rawSocket in
  outcome_of run = Returns tt
  /\ visible (trace_of run)
     = if gate_rejects fw request
       then [EDestroy rawSocket]
       else EHandleUpgrade rawSocket ::
              match handshake fw request with
              | Some ws => [EEmitConnection ws]
              | None => []
              end.
Proof.
  intros run. subst run. unfold upgrade_listener, gate_rejects.
  destruct (upgradeAuthHandler fw) as [handler|].
  - destruct (handler request) as [authResult|error]; simpl.
    + destruct (truthy authResult); simpl;
        [by destruct (handshake fw request) | done].
    + done.
  - simpl. by destruct (handshake fw request).
Qed.

(** X2. The predicate can be swapped at run time and only the one
    installed last counts: after [onWebSocketUpgrade h1] and then
    [onWebSocketUpgrade h2] the gate behaves as [h2] says ([h1] is not
    consulted), with [h2 = null] it accepts unconditionally, and the
    'connection' listener is not affected by either call. *)
Theorem onWebSocketUpgrade_last_wins fw h1 h2 request rawSocket :
  exists tr1 fw1 tr2 fw2,
    onWebSocketUpgrade fw h1 = (tr1, Returns fw1)
    /\ onWebSocketUpgrade fw1 h2 = (tr2, Returns fw2)
    /\ upgradeAuthHandler fw2 = h2
    /\ visible (trace_of (upgrade_listener fw2 request rawSocket))
       = (if match h2 with Some handler => rejects (handler request) | None => false end
          then [EDestroy rawSocket]
          else EHandleUpgrade rawSocket ::
                 match handshake fw request with
                 | Some ws => [EEmitConnection ws]
                 | None => []
                 end)
    /\ (forall clients socket req,
          on_connection fw2 clients socket req = on_connection fw clients socket req).
Proof.
  eexists _, _, _, _. split; [reflexivity|]. split; [reflexivity|].
  split; [reflexivity|]. split; [|reflexivity].
  unfold upgrade_listener. cbn [upgradeAuthHandler handshake].
  destruct h2 as [handler|]; [|simpl; by destruct (handshake fw request)].
  destruct (handler request) as [authResult|error]; simpl; [|done].
  destruct (truthy authResult); simpl; [by destruct (handshake fw request) | done].
Qed.

(** ** The heartbeat over the whole client set *)

Lemma strict_eq_false_true v : strict_eq_false v = true -> v = VBool false.
Proof. by destruct v as [| |[|]| | | | |]. Qed.

(** X3. One tick of the interval deals with every client of the set once,
    in the order of the set: a client whose flag is [false] is logged and
    terminated, any other client is pinged, each under its own id. The
    tick leaves the same sockets with the same listeners, every one with
    its flag at [false]. So a later tick with no pong in between, over
    whichever of these sockets are still in the set, pings nobody and
    terminates each of them, once, in order. *)
Theorem heartbeat_tick_then_tick clients :
  exists swept,
    heartbeat_tick clients
    = (concat (map (fun s => if strict_eq_false (isAlive s)
                             then [ELog Debug "[ws]: socket terminate" None;
                                   ETerminate (sock_id s)]
                             else [EPing (sock_id s)]) clients),
       Returns swept)
    /\ map sock_id swept = map sock_id clients
    /\ map listeners swept = map listeners clients
    /\ Forall (fun s => isAlive s = VBool false) swept
    /\ forall later,
         later ⊆ swept ->
         heartbeat_tick later
         = (concat (map (fun s => [ELog Debug "[ws]: socket terminate" None;
                                   ETerminate (sock_id s)]) later),
            Returns later).
Proof.
  exists (map (fun s => if strict_eq_false (isAlive s) then s
                        else set_isAlive s (VBool false)) clients).
  rewrite heartbeat_tick_pointwise.
  assert (Forall (fun s => isAlive s = VBool false)
            (map (fun s => if strict_eq_false (isAlive s) then s
                           else set_isAlive s (VBool false)) clients)) as Hflags.
  { induction clients as [|s cs IH]; [constructor|]. cbn [map]. constructor; [|done].
    destruct (strict_eq_false (isAlive s)) eqn:Hflag; [|done].
    by apply strict_eq_false_true. }
  split; [|split; [|split; [|split; [exact Hflags|]]]].
  - clear Hflags. f_equal.
    induction clients as [|s cs IH]; [done|]. cbn [map concat]. rewrite IH.
    f_equal. unfold heartbeat_sweep. by destruct (strict_eq_false (isAlive s)).
  - clear Hflags. induction clients as [|s cs IH]; [done|]. cbn [map]. rewrite IH.
    by destruct (strict_eq_false (isAlive s)).
  - clear Hflags. induction clients as [|s cs IH]; [done|]. cbn [map]. rewrite IH.
    by destruct (strict_eq_false (isAlive s)).
  - intros later Hsub.
    assert (Forall (fun s => isAlive s = VBool false) later) as Hlater.
    { apply Forall_forall. intros s Hs.
      by apply (proj1 (Forall_forall _ _) Hflags), Hsub. }
    rewrite heartbeat_tick_pointwise. clear Hsub Hflags.
    induction Hlater as [|s rest Hs _ IH]; [done|].
    cbn [map concat]. injection IH as IHtr IHsw. rewrite IHtr, IHsw.
    unfold heartbeat_sweep. by rewrite Hs.
Qed.

Lemma heartbeat_tick_then_tick_witness :
  heartbeat_tick [sample_socket 7 OPEN; set_isAlive (sample_socket 8 OPEN) (VBool false)]
  = ([EPing 7; ELog Debug "[ws]: socket terminate" None; ETerminate 8],
     Returns [set_isAlive (sample_socket 7 OPEN) (VBool false);
              set_isAlive (sample_socket 8 OPEN) (VBool false)])
  /\ heartbeat_tick [set_isAlive (sample_socket 7 OPEN) (VBool false)]
     = ([ELog Debug "[ws]: socket terminate" None; ETerminate 7],
        Returns [set_isAlive (sample_socket 7 OPEN) (VBool false)]).
Proof.
  destruct (heartbeat_tick_then_tick
              [sample_socket 7 OPEN; set_isAlive (sample_socket 8 OPEN) (VBool false)])
    as (swept & Hfirst & _ & _ & _ & Hlater).
  split; [reflexivity|].
  injection Hfirst as <-.
  apply (Hlater [set_isAlive (sample_socket 7 OPEN) (VBool false)]).
  intros s Hs. apply list_elem_of_singleton in Hs as ->. apply list_elem_of_here.
Defined.

Lemma emit_unmonitored fw clients (conn : connection) eventName args :
  monitored conn.1 = false ->
  exists tr conn',
    socket_emit fw clients conn eventName args = (tr, Returns conn')
    /\ Forall (fun e => dispatch_event e = true) tr
    /\ sock_id conn'.1 = sock_id conn.1
    /\ monitored conn'.1 = false
    /\ (eventName = "pong" -> isAlive conn'.1 = isAlive conn.1).
Proof.
  intros Hmon. unfold socket_emit.
  destruct (fire_all_returns fw clients (listeners_for eventName conn.1) conn args)
    as (tr & conn' & -> & Htr & Hl & Hid & _ & Ha).
  exists tr, conn'. split; [done|]. split; [done|]. split; [done|]. split.
  - unfold monitored, listeners_for in *. by rewrite Hl.
  - intros ->. unfold monitored in Hmon. by rewrite Hmon in Ha.
Qed.

Lemma unmonitored_run fw clients history : forall (conn : connection),
  monitored conn.1 = false ->
  ETerminate (sock_id conn.1) ∈ trace_of (heartbeat_run fw clients conn history)
  <-> (if strict_eq_false (isAlive conn.1) then 1 else 2) <= count_ticks history.
Proof.
  induction history as [|ev history IH]; intros conn Hmon.
  - simpl. split; [by intros ?%elem_of_nil|].
    unfold count_ticks. simpl. destruct (strict_eq_false _); lia.
  - unfold count_ticks in *. rewrite filter_cons. destruct ev.
    + rewrite decide_True by done. cbn [heartbeat_run heartbeat_step length].
      rewrite !bind_unfold.
      destruct (strict_eq_false (isAlive conn.1)) eqn:Hflag.
      * rewrite heartbeat_sweep_suspect by done. cbn.
        destruct (heartbeat_run _ _ _ history) as [tr o]. cbn.
        split; [lia|]. intros _. right. left.
      * rewrite heartbeat_sweep_alive by done. cbn.
        specialize (IH (set_isAlive conn.1 (VBool false), conn.2) Hmon).
        cbn in IH. destruct (heartbeat_run _ _ _ history) as [tr o]. cbn in *.
        rewrite <- Nat.succ_le_mono, <- IH. split.
        -- by intros [?|?]%elem_of_cons.
        -- intros ?. by right.
    + rewrite decide_False by done. cbn [heartbeat_run heartbeat_step].
      destruct (emit_unmonitored fw clients conn "pong" [] Hmon)
        as (tr & conn1 & -> & Htr & Hid & Hmon1 & Halive).
      rewrite bind_unfold, bind_returns. cbn [trace_of fst].
      rewrite elem_of_app, <- (Halive eq_refl), <- Hid, <- (IH conn1 Hmon1). split.
      * intros [Hin|?]; [|done]. by apply terminate_not_dispatch in Hin.
      * intros ?. by right.
Qed.

(** X4. A socket without the pong listener of [addNamespace] (which is
    what every socket is when no controller class is registered:
    [loadMidwayController] then installs no 'connection' listener) cannot
    be kept alive: it is pinged at the first tick and terminated as soon
    as a second tick comes, whether pongs arrive or not. *)
Theorem unmonitored_socket_is_terminated fw clients (conn : connection) history :
  monitored conn.1 = false ->
  strict_eq_false (isAlive conn.1) = false ->
  (ETerminate (sock_id conn.1) ∈ trace_of (heartbeat_run fw clients conn history)
   <-> 2 <= count_ticks history)
  /\ (forall socket request,
        emit_connection (loadMidwayController (@nil MidwayWSFramework)) clients socket request
        = ([], Returns (socket, ∅)))
  /\ (forall target rest socket request,
        emit_connection (loadMidwayController (target :: rest)) clients socket request
        = on_connection target clients socket request).
Proof.
  intros Hmon Hflag. split; [|by split].
  rewrite (unmonitored_run fw clients history conn Hmon). by rewrite Hflag.
Qed.

Lemma unmonitored_socket_is_terminated_witness :
  ETerminate 1 ∈ trace_of (heartbeat_run late_listener_framework [] (new_socket 1, ∅)
                             [Tick; PongReceived; PongReceived; Tick])
  <-> 2 <= count_ticks [Tick; PongReceived; PongReceived; Tick].
Proof.
  apply (proj1 (unmonitored_socket_is_terminated late_listener_framework []
                  (new_socket 1, ∅) [Tick; PongReceived; PongReceived; Tick]
                  eq_refl eq_refl)).
Defined.

(** ** The response binder, in general *)

Lemma policy_sends_length clients socket p evs :
  length (concat (map (policy_sends clients socket p) evs))
  = count_emit evs + count_broadcast evs * length (open_clients clients).
Proof.
  unfold count_emit, count_broadcast.
  induction evs as [|i evs IH]; [done|].
  cbn [map concat]. rewrite length_app, IH, !filter_cons. unfold policy_sends.
  destruct (eventType i); simpl; rewrite ?length_map; lia.
Qed.

(** X5. With a truthy result and a non-empty list of response
    descriptors the binder goes through the descriptors in order, sending
    to the originating connection for each emit descriptor and to every
    OPEN client for each broadcast descriptor, and adds no default send:
    the number of sends is the number of emit descriptors plus the number
    of broadcast descriptors times the number of OPEN clients. *)
Theorem bindSocketResponse_by_policy clients result socket name
    (methodMap : gmap string method_entry) evs :
  truthy result = true ->
  methodMap !! name = Some {| responseEvents := evs |} ->
  evs ≠ [] ->
  let run := bindSocketResponse clients result socket name methodMap in
  run = (concat (map (policy_sends clients socket (formatResult result)) evs), Returns tt)
  /\ length (trace_of run)
     = count_emit evs + count_broadcast evs * length (open_clients clients).
Proof.
  intros Ht Hmm Hne run.
  assert (run = (concat (map (policy_sends clients socket (formatResult result)) evs),
                 Returns tt)) as ->.
  { subst run. rewrite (bindSocketResponse_entry _ _ _ _ _ evs Ht Hmm).
    destruct evs; [done|]. cbn [length Nat.eqb]. by rewrite app_nil_r. }
  split; [done|]. apply policy_sends_length.
Qed.

Lemma bindSocketResponse_by_policy_witness :
  bindSocketResponse sample_clients (VStr "tick") (sample_socket 2 CLOSED) "onMessage"
    (singleton_table "onMessage"
       [sample_info "onMessage" BROADCAST; sample_info "onMessage" EMIT;
        sample_info "onMessage" EMIT])
  = ([ESend 1 (Raw (VStr "tick")); ESend 3 (Raw (VStr "tick"));
      ESend 2 (Raw (VStr "tick")); ESend 2 (Raw (VStr "tick"))], Returns tt).
Proof.
  apply (proj1 (bindSocketResponse_by_policy sample_clients (VStr "tick")
                  (sample_socket 2 CLOSED) "onMessage"
                  (singleton_table "onMessage"
                     [sample_info "onMessage" BROADCAST; sample_info "onMessage" EMIT;
                      sample_info "onMessage" EMIT])
                  [sample_info "onMessage" BROADCAST; sample_info "onMessage" EMIT;
                   sample_info "onMessage" EMIT]
                  eq_refl (lookup_singleton_eq _ _) ltac:(discriminate))).
Defined.

(** X6. The binder does nothing but send. Where the name reads as an
    inherited member of [Object.prototype] it sends nothing at all, and
    fails with a TypeError when the result is truthy; in every other case
    it returns normally. Every event of its trace is a send of the
    formatted result, addressed to the originating connection or to a
    client whose readyState is OPEN. *)
Theorem bindSocketResponse_sends_formatted_result clients result socket name
    (methodMap : gmap string method_entry) :
  let run := bindSocketResponse clients result socket name methodMap in
  match get_property methodMap name with
  | Inherited => run = ([], if truthy result then Throws TypeError else Returns tt)
  | Own _ | Undefined => outcome_of run = Returns tt
  end
  /\ Forall (fun e => exists ws,
               e = ESend ws (formatResult result)
               /\ (ws = sock_id socket
                   \/ exists c, c ∈ clients /\ sock_id c = ws
                                /\ is_open (readyState c) = true))
       (trace_of run).
Proof.
  intros run. subst run.
  destruct (truthy result) eqn:Ht.
  - destruct (get_property methodMap name) as [[evs]| |] eqn:Hprop.
    + assert (methodMap !! name = Some {| responseEvents := evs |}) as Hmm.
      { unfold get_property in Hprop. destruct (methodMap !! name) as [entry|].
        - by injection Hprop as ->.
        - by destruct (object_prototype_member name). }
      rewrite (bindSocketResponse_entry _ _ _ _ _ evs Ht Hmm). split; [done|].
      cbn [trace_of fst]. apply Forall_app. split.
      * apply Forall_concat, Forall_fmap, Forall_forall. intros i _.
        change (Forall (fun e => exists ws,
                  e = ESend ws (formatResult result)
                  /\ (ws = sock_id socket
                      \/ exists c, c ∈ clients /\ sock_id c = ws
                                   /\ is_open (readyState c) = true))
                  (policy_sends clients socket (formatResult result) i)).
        unfold policy_sends.
        destruct (eventType i); [constructor | constructor | constructor | |].
        -- constructor; [|constructor]. eexists. split; [reflexivity | by left].
        -- apply Forall_fmap, Forall_forall. intros c Hc.
           apply list_elem_of_filter in Hc as [Hopen Hc].
           eexists. split; [reflexivity|]. right. by exists c.
      * destruct (length evs =? 0)%nat; constructor; [|constructor].
        eexists. split; [reflexivity | by left].
    + rewrite (bindSocketResponse_inherited _ _ _ _ _ Ht Hprop). split; [done|constructor].
    + unfold bindSocketResponse. rewrite Ht, Hprop. split; [done|].
      constructor; [|constructor]. eexists. split; [reflexivity | by left].
  - unfold bindSocketResponse. rewrite Ht.
    split; [by destruct (get_property methodMap name) | constructor].
Qed.

(** ** The response table once the loop is over *)

Lemma table_step_is_Some (methodMap : gmap string method_entry) i name :
  object_prototype_member name = false ->
  is_Some (table_step methodMap i !! name)
  <-> is_Some (methodMap !! name) \/ propertyName i = name.
Proof.
  intros Hplain. destruct (decide (propertyName i = name)) as [<-|Hne].
  - split; [by right|]. intros _. unfold table_step.
    destruct (is_response (eventType i)).
    + unfold with_response. rewrite ensure_entry_lookup, lookup_insert_eq by done.
      by eexists.
    + rewrite ensure_entry_lookup by done. by eexists.
  - rewrite table_step_lookup_ne by done. tauto.
Qed.

Lemma build_table_is_Some infos : forall (methodMap : gmap string method_entry) name,
  object_prototype_member name = false ->
  is_Some (build_table infos methodMap !! name)
  <-> is_Some (methodMap !! name) \/ name ∈ map propertyName infos.
Proof.
  induction infos as [|i infos IH]; intros mm name Hplain.
  - simpl. split; [by left|]. intros [?|?%elem_of_nil]; done.
  - change (build_table (i :: infos) mm) with (build_table infos (table_step mm i)).
    rewrite IH, table_step_is_Some by done. cbn [map]. rewrite elem_of_cons.
    split; [intros [[?|?]|?] | intros [?|[?|?]]]; auto.
Qed.

Lemma entry_of_table_events (methodMap : gmap string method_entry) name entry :
  methodMap !! name = Some entry ->
  entry = {| responseEvents := table_events methodMap name |}.
Proof. intros H. unfold table_events. rewrite H. by destruct entry. Qed.

(** X7. When the 'connection' listener has returned, [methodMap] reads as
    follows under a name: as the inherited member for a name of
    [Object.prototype], whatever the descriptors; otherwise, for a
    method name that occurs in the descriptors, as an entry that lists
    all the response descriptors of that method in declaration order,
    wherever they stand relative to the method's other descriptors; and
    as undefined for every other name. The message and close listeners,
    which fire later, work on this complete table. *)
Theorem response_table_after_setup fw clients socket request (conn : connection) :
  outcome_of (on_connection fw clients socket request) = Returns conn ->
  forall name,
    get_property conn.2 name
    = if object_prototype_member name then Inherited
      else if bool_decide (name ∈ map propertyName (wsEventInfos fw))
      then Own {| responseEvents := response_events_for name (wsEventInfos fw) |}
      else Undefined.
Proof.
  rewrite on_connection_unfold.
  destruct (outcome_of (compose _ _)); [|done].
  destruct (process_descriptors fw clients request _ (wsEventInfos fw))
    as [tr o] eqn:Hloop.
  cbn [outcome_of snd]. intros -> name.
  apply process_descriptors_returns in Hloop as [-> _]. cbn [snd].
  unfold get_property.
  destruct (object_prototype_member name) eqn:Hmember.
  - by rewrite (no_inherited_key_build (wsEventInfos fw) ∅ no_inherited_key_empty
                  name Hmember).
  - pose proof (build_table_is_Some (wsEventInfos fw) ∅ name Hmember) as Hsome.
    pose proof (table_events_build (wsEventInfos fw) ∅ name Hmember) as Hevents.
    rewrite lookup_empty in Hsome. unfold table_events at 2 in Hevents.
    rewrite lookup_empty in Hevents. cbn [app] in Hevents.
    destruct (build_table (wsEventInfos fw) ∅ !! name) as [entry|] eqn:Hlookup.
    + rewrite bool_decide_eq_true_2.
      * rewrite (entry_of_table_events _ _ _ Hlookup). by rewrite Hevents.
      * destruct Hsome as [[[? H]|?] _]; [by eexists | done | done].
    + rewrite bool_decide_eq_false_2; [done|]. intros Hin.
      destruct Hsome as [_ [? H]]; [by right | done].
Qed.

Lemma response_table_after_setup_witness :
  exists conn : connection,
    outcome_of (on_connection full_framework sample_clients (new_socket 1) 100) = Returns conn
    /\ get_property conn.2 "onConnect"
       = Own {| responseEvents := [sample_info "onConnect" EMIT;
                                   sample_info "onConnect" BROADCAST] |}
    /\ get_property conn.2 "other" = Undefined
    /\ get_property conn.2 "toString" = Inherited.
Proof.
  eexists. split; [reflexivity|]. split; [|split].
  - apply (response_table_after_setup full_framework sample_clients (new_socket 1) 100
             _ eq_refl "onConnect").
  - apply (response_table_after_setup full_framework sample_clients (new_socket 1) 100
             _ eq_refl "other").
  - apply (response_table_after_setup full_framework sample_clients (new_socket 1) 100
             _ eq_refl "toString").
Defined.

(** ** Which handlers the connection setup calls *)

Lemma Forall_process_descriptors (P : event -> Prop) fw clients request infos :
  forall socket (methodMap : gmap string method_entry),
  (forall p, P (EAwait p)) ->
  (forall lvl msg err, P (ELog lvl msg err)) ->
  (forall ws p, P (ESend ws p)) ->
  (forall ws n l, P (ERegister ws n l)) ->
  (forall i, i ∈ infos -> eventType i = ON_CONNECTION ->
     runGuard fw (propertyName i) = Returns true ->
     P (EInvoke (propertyName i) [VObj (sock_id socket); VObj request])) ->
  Forall P (trace_of (process_descriptors fw clients request (socket, methodMap) infos)).
Proof.
  induction infos as [|i infos IH]; intros socket mm Hawait Hlog Hsend Hreg Hinv.
  - constructor.
  - rewrite process_descriptors_cons. cbn [trace_of fst].
    constructor; [done|]. apply Forall_app. split.
    + unfold descriptor_events.
      destruct (eventType i) eqn:Hkind; try by repeat constructor.
      unfold on_connection_dispatch. apply Forall_try_catch.
      * apply Forall_bind.
        -- apply Forall_connection_pipeline; try done.
           intros Hguard. apply Hinv; [by left | done | done].
        -- intros result. apply Forall_awaiting; [done|].
           by apply Forall_bindSocketResponse.
      * intros e. by apply Forall_emit_event.
    + destruct (step_fails mm i); [constructor|].
      apply IH; try done. intros i' Hin. apply Hinv. by right.
Qed.

(** X8. During connection setup no handler is called but those of
    on-connection descriptors whose guard answered true, and each such
    call is made with the socket and the originating request: whatever
    the middleware does, message and close handlers are not called, and
    a handler whose guard fails or denies is not called. *)
Theorem setup_calls_only_guarded_on_connection fw clients socket request :
  Forall (fun e => match e with
                   | EInvoke name args =>
                       args = [VObj (sock_id socket); VObj request]
                       /\ exists i, i ∈ wsEventInfos fw /\ propertyName i = name
                                    /\ connects fw i = true
                   | _ => True
                   end)
    (trace_of (on_connection fw clients socket request)).
Proof.
  rewrite on_connection_unfold. cbn [trace_of fst].
  repeat (constructor; [done|]).
  destruct (outcome_of (compose _ _)); [|constructor].
  apply Forall_process_descriptors; try done.
  intros i Hin Hkind Hguard. split; [done|].
  exists i. split; [done|]. split; [done|]. unfold connects. by rewrite Hkind, Hguard.
Qed.

Lemma invokes_of_app tr1 tr2 :
  invokes_of (tr1 ++ tr2) = invokes_of tr1 ++ invokes_of tr2.
Proof. apply omap_app. Qed.

Lemma invokes_of_binder clients result socket name (methodMap : gmap string method_entry) :
  invokes_of (trace_of (bindSocketResponse clients result socket name methodMap)) = [].
Proof.
  assert (Forall (fun e => is_invoke e = false)
            (trace_of (bindSocketResponse clients result socket name methodMap))) as H
    by (by apply Forall_bindSocketResponse).
  induction H as [|e tr He _ IH]; [done|].
  destruct e; simpl in He; try discriminate He; exact IH.
Qed.

Lemma dispatch_invokes_without_middleware fw clients socket request i
    (methodMap : gmap string method_entry) :
  eventMiddleware i = [] ->
  invokes_of (trace_of (on_connection_dispatch fw clients socket request i methodMap))
  = match runGuard fw (propertyName i) with
    | Returns true => [(propertyName i, [VObj (sock_id socket); VObj request])]
    | _ => []
    end.
Proof.
  intros Hmw.
  unfold on_connection_dispatch, connection_pipeline, guarded_handler, invoke, of_outcome.
  rewrite Hmw.
  destruct (runGuard fw (propertyName i)) as [[|]|e]; [|reflexivity|reflexivity].
  destruct (controller fw (propertyName i) _) as [result|e].
  - pose proof (invokes_of_binder clients result socket (propertyName i) methodMap) as H.
    cbn -[bindSocketResponse].
    destruct (bindSocketResponse _ _ _ _ _) as [tr [[]|e]]; cbn in *.
    + by rewrite H.
    + by rewrite omap_app, H.
  - reflexivity.
Qed.

Lemma loop_trace_invokes fw clients request accepted infos : forall pre,
  Forall (fun i => eventMiddleware i = []) infos ->
  invokes_of (loop_trace fw clients request accepted pre infos)
  = map (fun i => (propertyName i, [VObj (sock_id accepted); VObj request]))
        (filter (fun i => connects fw i = true) (processed infos)).
Proof.
  induction infos as [|i infos IH]; intros pre Hmw; [done|].
  apply Forall_cons in Hmw as [Hi Hmw].
  cbn [loop_trace processed].
  change (invokes_of (EAwait AwGetController :: ?tr)) with (invokes_of tr).
  rewrite invokes_of_app. unfold descriptor_events, unsafe.
  destruct (eventType i) eqn:Hkind; cbn [is_response andb].
  - rewrite (IH _ Hmw), filter_cons.
    pose proof (dispatch_invokes_without_middleware fw clients
                  (add_listeners accepted (listener_plan pre)) request i
                  (ensure_entry (propertyName i) (build_table pre ∅)) Hi) as Hd.
    rewrite Hd. cbn [add_listeners sock_id].
    destruct (runGuard fw (propertyName i)) as [[|]|e] eqn:Hguard.
    + rewrite decide_True by (unfold connects; by rewrite Hkind, Hguard). done.
    + rewrite decide_False by (unfold connects; by rewrite Hkind, Hguard). done.
    + rewrite decide_False by (unfold connects; by rewrite Hkind, Hguard). done.
  - rewrite (IH _ Hmw), filter_cons.
    rewrite decide_False by (unfold connects; by rewrite Hkind). done.
  - rewrite (IH _ Hmw), filter_cons.
    rewrite decide_False by (unfold connects; by rewrite Hkind). done.
  - destruct (object_prototype_member (propertyName i)); [done|].
    rewrite (IH _ Hmw), filter_cons.
    rewrite decide_False by (unfold connects; by rewrite Hkind). done.
  - destruct (object_prototype_member (propertyName i)); [done|].
    rewrite (IH _ Hmw), filter_cons.
    rewrite decide_False by (unfold connects; by rewrite Hkind). done.
Qed.

(** X9. When no on-connection descriptor carries middleware of its own,
    connection setup calls the handler of each on-connection descriptor
    that the loop gets to and whose guard answers true exactly once, in
    declaration order, with the socket and the request. The loop gets to
    every descriptor up to the first response descriptor on a method
    named like a member of [Object.prototype]; the handlers declared
    after such a descriptor are not called. Nothing is called when the
    connection middleware fails. *)
Theorem on_connection_handlers_called_once fw clients socket request :
  Forall (fun i => eventMiddleware i = []) (wsEventInfos fw) ->
  invokes_of (trace_of (on_connection fw clients socket request))
  = match outcome_of (compose (map run_mw (connectionMiddlewareManager fw ++
                                           controllerConnectionMiddleware fw)) no_next) with
    | Returns _ =>
        map (fun i => (propertyName i, [VObj (sock_id socket); VObj request]))
            (filter (fun i => connects fw i = true) (processed (wsEventInfos fw)))
    | Throws _ => []
    end.
Proof.
  intros Hmw. rewrite on_connection_unfold. cbn [trace_of fst].
  destruct (outcome_of (compose _ _)); [|done].
  change (invokes_of (?a :: ?b :: ?c :: ?d :: ?tr)) with
    (invokes_of [a; b; c; d] ++ invokes_of tr) at 1.
  rewrite process_descriptors_from_empty. cbn [trace_of fst].
  by rewrite (loop_trace_invokes _ _ _ _ _ _ Hmw).
Qed.

Lemma on_connection_handlers_called_once_witness :
  invokes_of (trace_of (on_connection full_framework sample_clients (new_socket 1) 100))
  = [("onConnect", [VObj 1; VObj 100])]
  /\ invokes_of (trace_of (on_connection inherited_name_framework [] (new_socket 1) 100))
     = [("onConnect", [VObj 1; VObj 100])].
Proof.
  split.
  - apply (on_connection_handlers_called_once full_framework sample_clients
             (new_socket 1) 100).
    repeat constructor.
  - apply (on_connection_handlers_called_once inherited_name_framework []
             (new_socket 1) 100).
    repeat constructor.
Defined.

(** ** Message and close dispatch *)

Lemma trace_of_try_bind_prefix {A} (m : M A) (k : A -> M unit) (handler : exn -> M unit) e :
  e ∈ trace_of m -> e ∈ trace_of (try_catch (m ≫= k) handler).
Proof.
  intros Hin. rewrite bind_unfold. destruct m as [tr [a|err]]; cbn in *.
  - destruct (k a) as [tr' [[]|err]]; cbn.
    + apply elem_of_app. by left.
    + destruct (handler err) as [tr'' o]. cbn. rewrite !elem_of_app. by left; left.
  - destruct (handler err) as [tr'' o]. cbn. apply elem_of_app. by left.
Qed.

Lemma message_pipeline_without_middleware fw wsEventInfo args :
  frameworkMiddleware fw = [] -> controllerMiddleware fw = [] ->
  eventMiddleware wsEventInfo = [] ->
  message_pipeline fw wsEventInfo args
  = ([EAwait AwCompose; EAwait AwPipeline; EAwait AwCompose; EAwait AwPipeline;
      EInvoke (propertyName wsEventInfo) args],
     controller fw (propertyName wsEventInfo) args).
Proof.
  intros Hf Hc He. unfold message_pipeline, applyMiddleware, invoke, of_outcome.
  rewrite Hf, Hc, He. cbn. by destruct (controller fw _ _).
Qed.

Lemma message_listener_invokes_without_middleware fw clients socket wsEventInfo
    (methodMap : gmap string method_entry) args :
  frameworkMiddleware fw = [] -> controllerMiddleware fw = [] ->
  eventMiddleware wsEventInfo = [] ->
  invokes_of (trace_of (message_listener fw clients socket wsEventInfo methodMap args))
  = [(propertyName wsEventInfo, args)].
Proof.
  intros Hf Hc He. unfold message_listener.
  rewrite (message_pipeline_without_middleware _ _ _ Hf Hc He).
  destruct (controller fw (propertyName wsEventInfo) args) as [result|e];
    [|reflexivity].
  destruct (is_function (last_arg args)) eqn:Hfn.
  - destruct (call_ack_function _ result Hfn) as (f & _ & Hack).
    cbn -[bindSocketResponse call_ack]. rewrite Hack. reflexivity.
  - pose proof (invokes_of_binder clients result socket (propertyName wsEventInfo)
                  methodMap) as H.
    cbn -[bindSocketResponse].
    destruct (bindSocketResponse _ _ _ _ _) as [tr [[]|e]]; cbn in *.
    + by rewrite H.
    + by rewrite omap_app, H.
Qed.

(** X10. The guard is an on-connection matter only: the message and the
    close dispatch never consult it. The close listener calls its handler
    with the close reason whatever the guard would say and without any
    middleware, and a message listener with no middleware in front of it
    calls its handler with the arguments of the event, guard or no
    guard. *)
Theorem guard_not_applied_to_message_and_close fw clients socket wsEventInfo
    (methodMap : gmap string method_entry) args reason :
  let message := message_listener fw clients socket wsEventInfo methodMap args in
  let close := close_listener fw clients socket wsEventInfo methodMap reason in
  Forall (fun e => e ≠ EAwait AwGuard) (trace_of message)
  /\ Forall (fun e => e ≠ EAwait AwGuard) (trace_of close)
  /\ invokes_of (trace_of close) = [(propertyName wsEventInfo, [reason])]
  /\ (frameworkMiddleware fw = [] -> controllerMiddleware fw = [] ->
      eventMiddleware wsEventInfo = [] ->
      invokes_of (trace_of message) = [(propertyName wsEventInfo, args)]).
Proof.
  intros message close. subst message close.
  split; [|split; [|split]].
  - unfold message_listener. apply Forall_bind; [by apply Forall_emit_event|].
    intros _. apply Forall_try_catch.
    + apply Forall_bind; [by apply Forall_message_pipeline|].
      intros result. destruct (is_function (last_arg args)) eqn:Hf.
      * destruct (call_ack_function _ result Hf) as (f & _ & ->). by repeat constructor.
      * apply Forall_awaiting; [done|]. by apply Forall_bindSocketResponse.
    + intros e. by apply Forall_emit_event.
  - unfold close_listener. apply Forall_try_catch.
    + apply Forall_bind.
      * apply Forall_awaiting; [done|]. by apply Forall_invoke.
      * intros result. apply Forall_awaiting; [done|]. by apply Forall_bindSocketResponse.
    + intros e. by apply Forall_emit_event.
  - unfold close_listener, invoke, of_outcome.
    destruct (controller fw (propertyName wsEventInfo) [reason]) as [result|e];
      [|reflexivity].
    pose proof (invokes_of_binder clients result socket (propertyName wsEventInfo)
                  methodMap) as H.
    cbn -[bindSocketResponse].
    destruct (bindSocketResponse _ _ _ _ _) as [tr [[]|e]]; cbn in *.
    + by rewrite H.
    + by rewrite omap_app, H.
  - apply message_listener_invokes_without_middleware.
Qed.

Lemma guard_not_applied_to_message_and_close_witness :
  invokes_of (trace_of (message_listener
    (sample_framework [] [] (fun _ => Returns false)) sample_clients (new_socket 1)
    (sample_info "onMessage" ON_MESSAGE) ∅ [VStr "hello"]))
  = [("onMessage", [VStr "hello"])].
Proof.
  destruct (guard_not_applied_to_message_and_close
              (sample_framework [] [] (fun _ => Returns false)) sample_clients
              (new_socket 1) (sample_info "onMessage" ON_MESSAGE) ∅ [VStr "hello"]
              VUndefined) as (_ & _ & _ & Hmessage).
  apply Hmessage; reflexivity.
Defined.

(** X11. A message whose last argument is not a function (in particular
    a message with no argument at all, or with a function anywhere but
    last) is never acknowledged: the result of the pipeline goes through
    the response binder, once, with the table of the connection, and the
    listener returns normally, a failure of the binder being caught and
    logged. *)
Theorem message_without_ack_goes_through_binder fw clients socket wsEventInfo
    (methodMap : gmap string method_entry) args :
  is_function (last_arg args) = false ->
  let run := message_listener fw clients socket wsEventInfo methodMap args in
  Forall (fun e => is_ack e = false) (trace_of run)
  /\ (forall result,
        outcome_of (message_pipeline fw wsEventInfo args) = Returns result ->
        let binder := bindSocketResponse clients result socket
                        (propertyName wsEventInfo) methodMap in
        run = (ELog Debug "[ws]: got message" None ::
                 trace_of (message_pipeline fw wsEventInfo args)
                 ++ EAwait AwBindResponse ::
                    trace_of binder
                    ++ match outcome_of binder with
                       | Returns _ => []
                       | Throws e => [ELog Error "" (Some e)]
                       end,
               Returns tt)).
Proof.
  intros Hfn run. subst run. split.
  - unfold message_listener. apply Forall_bind; [by apply Forall_emit_event|].
    intros _. apply Forall_try_catch.
    + apply Forall_bind; [by apply Forall_message_pipeline|].
      intros result. rewrite Hfn.
      apply Forall_awaiting; [done|]. by apply Forall_bindSocketResponse.
    + intros e. by apply Forall_emit_event.
  - intros result Hres binder. subst binder. unfold message_listener. rewrite Hfn.
    destruct (message_pipeline fw wsEventInfo args) as [tr o]. cbn in Hres. subst o.
    cbn -[bindSocketResponse].
    destruct (bindSocketResponse clients result socket (propertyName wsEventInfo)
                methodMap) as [tr' [[]|e]]; cbn.
    + by rewrite app_nil_r.
    + by rewrite <- app_assoc.
Qed.

Lemma message_without_ack_goes_through_binder_witness :
  message_listener full_framework sample_clients (new_socket 1)
    (sample_info "onMessage" ON_MESSAGE)
    (singleton_table "onMessage" [sample_info "onMessage" EMIT]) []
  = ([ELog Debug "[ws]: got message" None; EAwait AwCompose; EAwait AwPipeline;
      EAwait AwCompose; EAwait AwPipeline; EInvoke "onMessage" [];
      EAwait AwBindResponse; ESend 1 (JSON_stringify (VObj 11))], Returns tt).
Proof.
  apply (proj2 (message_without_ack_goes_through_binder full_framework sample_clients
                  (new_socket 1) (sample_info "onMessage" ON_MESSAGE)
                  (singleton_table "onMessage" [sample_info "onMessage" EMIT]) []
                  eq_refl) (VObj 11) eq_refl).
Defined.

(** ** Connection middleware *)

(** X12. A failure of the connection middleware is not caught: it leaves
    the 'connection' listener as a failure, after the 'error' and 'pong'
    listeners have been registered and before any descriptor is looked
    at. No handler is called, no message or close listener is
    registered, and the socket is neither destroyed nor terminated. *)
Theorem connection_middleware_failure_propagates fw clients socket request e :
  outcome_of (compose (map run_mw (connectionMiddlewareManager fw ++
                                   controllerConnectionMiddleware fw)) no_next)
  = Throws e ->
  on_connection fw clients socket request
  = ([ERegister (sock_id socket) "error" LError; ERegister (sock_id socket) "pong" LPong;
      EAwait AwCompose; EAwait AwConnectionMiddleware], Throws e).
Proof. intros Hfail. rewrite on_connection_unfold. by rewrite Hfail. Qed.

Lemma connection_middleware_failure_propagates_witness :
  on_connection
    (sample_framework [sample_info "onMessage" ON_MESSAGE]
       [pass_through; MwThrow (Thrown (VStr "denied"))] (fun _ => Returns true))
    sample_clients (new_socket 1) 100
  = ([ERegister 1 "error" LError; ERegister 1 "pong" LPong;
      EAwait AwCompose; EAwait AwConnectionMiddleware], Throws (Thrown (VStr "denied"))).
Proof.
  apply (connection_middleware_failure_propagates
           (sample_framework [sample_info "onMessage" ON_MESSAGE]
              [pass_through; MwThrow (Thrown (VStr "denied"))] (fun _ => Returns true))
           sample_clients (new_socket 1) 100 (Thrown (VStr "denied")) eq_refl).
Defined.

(** ** From setup to dispatch *)

Lemma listeners_for_plan eventName socket infos :
  eventName ≠ "close" ->
  listeners_for eventName (add_listeners socket (listener_plan infos))
  = listeners_for eventName socket
    ++ map LMessage (message_descriptors_for eventName infos).
Proof.
  intros Hclose. unfold listeners_for. cbn [listeners add_listeners].
  rewrite omap_app. f_equal.
  unfold message_descriptors_for.
  induction infos as [|i infos IH]; [done|].
  rewrite listener_plan_cons, omap_app, IH, filter_cons.
  unfold listener_plan. cbn [omap list_omap].
  destruct (eventType i) eqn:Hkind; cbn [is_message].
  - rewrite decide_False by (by intros [? _]). done.
  - cbn [omap list_omap]. destruct (String.eqb (messageEventName i) eventName) eqn:Heq.
    + apply String.eqb_eq in Heq. rewrite decide_True by done. done.
    + apply String.eqb_neq in Heq. rewrite decide_False by (by intros [_ ?]). done.
  - cbn [omap list_omap]. destruct (String.eqb "close" eventName) eqn:Heq.
    + apply String.eqb_eq in Heq. by subst eventName.
    + rewrite decide_False by (by intros [? _]). done.
  - rewrite decide_False by (by intros [? _]). done.
  - rewrite decide_False by (by intros [? _]). done.
Qed.

Lemma fire_all_messages fw clients (conn : connection) infos args :
  frameworkMiddleware fw = [] -> controllerMiddleware fw = [] ->
  Forall (fun i => eventMiddleware i = []) infos ->
  invokes_of (trace_of (fire_all fw clients conn (map LMessage infos) args))
  = map (fun i => (propertyName i, args)) infos
  /\ outcome_of (fire_all fw clients conn (map LMessage infos) args) = Returns conn.
Proof.
  intros Hf Hc Hmw. induction Hmw as [|i infos Hi _ [IHtr IHout]]; [done|].
  cbn [map fire_all fire]. rewrite bind_unfold.
  rewrite then_ret_returns by apply message_listener_returns.
  rewrite bind_returns. unfold trace_of, outcome_of in *. cbn [fst snd].
  rewrite invokes_of_app, IHtr, IHout. split; [|done].
  pose proof (message_listener_invokes_without_middleware fw clients conn.1 i conn.2 args
                Hf Hc Hi) as H.
  unfold trace_of in H. by rewrite H.
Qed.

(** X13. Once the 'connection' listener has returned for a new socket,
    an inbound event of a given name (other than 'error', 'pong' and
    'close') reaches the handlers of exactly the message descriptors
    declared for that name: with no middleware in the way each of them is
    called once, in declaration order, with the arguments of the event,
    and the connection is left as it was; with no descriptor for the name
    nothing is called. *)
Theorem inbound_event_reaches_its_handlers fw clients socket request
    (conn : connection) eventName args :
  listeners socket = [] ->
  outcome_of (on_connection fw clients socket request) = Returns conn ->
  eventName ≠ "error" -> eventName ≠ "pong" -> eventName ≠ "close" ->
  frameworkMiddleware fw = [] -> controllerMiddleware fw = [] ->
  Forall (fun i => eventMiddleware i = []) (wsEventInfos fw) ->
  listeners_for eventName conn.1
    = map LMessage (message_descriptors_for eventName (wsEventInfos fw))
  /\ invokes_of (trace_of (socket_emit fw clients conn eventName args))
     = map (fun i => (propertyName i, args))
           (message_descriptors_for eventName (wsEventInfos fw))
  /\ outcome_of (socket_emit fw clients conn eventName args) = Returns conn.
Proof.
  intros Hnew Hrun Herror Hpong Hclose Hf Hc Hmw.
  rewrite on_connection_unfold in Hrun.
  destruct (outcome_of (compose _ _)); [|done].
  destruct (process_descriptors fw clients request _ (wsEventInfos fw))
    as [tr o] eqn:Hloop.
  cbn [outcome_of snd] in Hrun. subst o.
  apply process_descriptors_returns in Hloop as [-> _].
  assert (listeners_for eventName
            (add_listeners (add_listeners (set_isAlive socket (VBool true))
                              [("error", LError); ("pong", LPong)])
               (listener_plan (wsEventInfos fw)))
          = map LMessage (message_descriptors_for eventName (wsEventInfos fw))) as Hls.
  { rewrite listeners_for_plan by done.
    unfold listeners_for at 1. cbn [listeners add_listeners set_isAlive].
    rewrite Hnew. cbn [app omap list_omap].
    apply String.eqb_neq in Herror, Hpong.
    rewrite String.eqb_sym in Herror. rewrite String.eqb_sym in Hpong.
    by rewrite Herror, Hpong. }
  split; [exact Hls|].
  unfold socket_emit. cbn [fst]. rewrite Hls.
  apply fire_all_messages; try done.
  unfold message_descriptors_for. rewrite Forall_forall in Hmw. apply Forall_forall.
  intros i Hi. apply Hmw. by apply list_elem_of_filter in Hi as [_ ?].
Qed.

Lemma inbound_event_reaches_its_handlers_witness :
  exists conn : connection,
    outcome_of (on_connection full_framework sample_clients (new_socket 1) 100) = Returns conn
    /\ invokes_of (trace_of (socket_emit full_framework sample_clients conn "message"
                               [VStr "hello"]))
       = [("onMessage", [VStr "hello"])].
Proof.
  eexists. split; [reflexivity|].
  apply (inbound_event_reaches_its_handlers full_framework sample_clients (new_socket 1) 100
           _ "message" [VStr "hello"] eq_refl eq_refl); try discriminate; try reflexivity.
  repeat constructor.
Defined.
